(** * WebP converter: the conversion engine and its utilities

    A shallow embedding of [src/converter.js] (the [ImageConverter] engine
    and the [Utils] helpers that follow it in the same file), with the
    properties of the engine's state machine, of file validation and of the
    formatting helpers.

    Conventions of the embedding.
    - JavaScript strings are [string]s; every character the code inspects
      ('.', '/', the letters of the MIME types) is ASCII, and upper-casing
      is modelled on ASCII strings only.
    - [File.size] and [Blob.size] are byte counts (WebIDL [unsigned long
      long]): they are [N]. Where the code computes with them as Numbers
      ([calculateReduction]) they are converted to binary64 and the
      arithmetic is the IEEE one of [PrimFloat]. The encoder quality is a
      Number, hence a [float].
    - [null] is [None]; a thrown [Error] is [Throw msg].
    - The browser is an environment: what it answers (the decoded image, the
      encoder's blob, the object URL it hands out) is an argument of the
      operation that asks for it, and every call that matters for resource
      lifetime is appended to a log.
    - An [async] method is split at its [await]: the part that runs when the
      method is called and the part that runs when the awaited promise
      settles. Other calls may run between the two. *)

From Stdlib Require Import String Ascii List ZArith NArith Lia Bool.
From Stdlib Require Import DecimalString Floats.
Import ListNotations.

Local Open Scope list_scope.
Local Open Scope string_scope.

(* ================================================================= *)
(** ** JavaScript string and array primitives used by the code *)

Module JS.

(** [s.lastIndexOf(c)] for a one-character [c]: the index of the last
    occurrence, -1 when there is none. *)
Fixpoint lastIndexOf_from (c : ascii) (s : string) (i : Z) (found : Z) : Z :=
  match s with
  | EmptyString => found
  | String a rest =>
      lastIndexOf_from c rest (i + 1) (if Ascii.eqb a c then i else found)
  end.

Definition lastIndexOf (c : ascii) (s : string) : Z :=
  lastIndexOf_from c s 0 (-1).

(** The first [n] characters of [s] (all of it when it is shorter). *)
Fixpoint take (n : nat) (s : string) : string :=
  match n, s with
  | O, _ => EmptyString
  | S _, EmptyString => EmptyString
  | S n', String a rest => String a (take n' rest)
  end.

Fixpoint drop (n : nat) (s : string) : string :=
  match n, s with
  | O, _ => s
  | S _, EmptyString => EmptyString
  | S n', String _ rest => drop n' rest
  end.

(** [s.substring(start, end)]: both indices are clamped to [0, length], and
    swapped when [start > end]. *)
Definition clamp_index (len i : Z) : Z := Z.max 0 (Z.min i len).

Definition substring (s : string) (start stop : Z) : string :=
  let len := Z.of_nat (String.length s) in
  let a := clamp_index len start in
  let b := clamp_index len stop in
  let from := Z.min a b in
  let to := Z.max a b in
  take (Z.to_nat (to - from)) (drop (Z.to_nat from) s).

(** [s.split(c)] for a one-character separator: the segments between the
    occurrences of [c]; never an empty array. *)
Fixpoint split_acc (c : ascii) (s : string) (cur : string) : list string :=
  match s with
  | EmptyString => [cur]
  | String a rest =>
      if Ascii.eqb a c then cur :: split_acc c rest EmptyString
      else split_acc c rest (cur ++ String a EmptyString)
  end.

Definition split (c : ascii) (s : string) : list string :=
  split_acc c s EmptyString.

(** [arr.pop()] as an expression: the last element ([undefined] on an empty
    array, which [split] never returns). *)
Definition pop (l : list string) : option string :=
  match rev l with
  | [] => None
  | x :: _ => Some x
  end.

(** [arr.join(sep)]. *)
Fixpoint join (sep : string) (l : list string) : string :=
  match l with
  | [] => EmptyString
  | [x] => x
  | x :: rest => x ++ sep ++ join sep rest
  end.

(** [s.toUpperCase()] for a string of ASCII characters: a-z become A-Z and
    nothing else changes. Beyond ASCII the runtime follows the Unicode case
    mappings, which are not modelled here: what is proved about an
    upper-cased string is stated for the strings that [is_ascii] accepts.
    (The type names of [SUPPORTED_TYPES], the only other strings the code
    upper-cases, are ASCII.) *)
Definition is_ascii (s : string) : bool :=
  forallb (fun a => Nat.ltb (nat_of_ascii a) 128) (list_ascii_of_string s).

Definition upper_ascii (a : ascii) : ascii :=
  let n := nat_of_ascii a in
  if andb (Nat.leb 97 n) (Nat.leb n 122) then ascii_of_nat (n - 32) else a.

Fixpoint toUpperCase (s : string) : string :=
  match s with
  | EmptyString => EmptyString
  | String a rest => String (upper_ascii a) (toUpperCase rest)
  end.

(** [arr.includes(x)] on an array of strings. *)
Definition includes (l : list string) (x : string) : bool :=
  existsb (String.eqb x) l.

(** String concatenation with a value that may be [undefined]. *)
Definition to_string (v : option string) : string :=
  match v with
  | Some s => s
  | None => "undefined"
  end.

(** *** Printing numbers *)

Definition digits_of_N (n : N) : string :=
  NilZero.string_of_uint (N.to_uint n).

Fixpoint zeros (k : nat) : string :=
  match k with
  | O => EmptyString
  | S k' => String "0" (zeros k')
  end.

(** The decimal [n / 10^d] written with exactly [d] digits after the point
    (no point when [d = 0]). *)
Definition fixed_string (n : N) (d : nat) : string :=
  let s := digits_of_N n in
  let s := zeros (S d - String.length s) ++ s in
  let int_len := (String.length s - d)%nat in
  match d with
  | O => s
  | S _ => take int_len s ++ "." ++ drop int_len s
  end.

(** [x.toFixed(d)] for a Number whose exact value is [num / den >= 0]: the
    integer [n] with [n / 10^d] nearest to the value, the larger one on a
    tie, printed with [d] decimals. (Values from 10^21 on are printed in
    exponent notation by the runtime; byte counts and their ratios stay far
    below.) *)
Definition round_scaled (num den : N) (d : nat) : N :=
  ((2 * num * 10 ^ N.of_nat d + den) / (2 * den))%N.

Definition toFixed_exact (num den : N) (d : nat) : string :=
  fixed_string (round_scaled num den d) d.

(** [parseFloat(s) + ' ...'] for [s] the decimal [n / 10^d]: the runtime
    reads the decimal to the nearest double and prints the shortest decimal
    that reads back to it, which for a decimal of at most 15 significant
    digits (here at most 4 before the point and [d] after it) is the decimal
    itself without the trailing zeros of its fraction. *)
Fixpoint strip_zeros (n : N) (d : nat) : N * nat :=
  match d with
  | O => (n, O)
  | S d' => if (n mod 10 =? 0)%N then strip_zeros (n / 10)%N d' else (n, d)
  end.

Definition shortest_string (n : N) (d : nat) : string :=
  let '(n', d') := strip_zeros n d in fixed_string n' d'.

(** [x.toFixed(d)] for a binary64 [x] (below 10^21 in magnitude). *)
Definition toFixed (x : float) (d : nat) : string :=
  match Prim2SF x with
  | S754_nan => "NaN"
  | S754_infinity s => if s then "-Infinity" else "Infinity"
  | S754_zero _ => toFixed_exact 0 1 d
  | S754_finite s m e =>
      (if s then "-" else "") ++
      match e with
      | Zneg k => toFixed_exact (Npos m) (2 ^ Npos k) d
      | _ => toFixed_exact (Npos m * 2 ^ Z.to_N e) 1 d
      end
  end.

(** A byte count as a Number: the nearest binary64, ties to even (exact
    below 2^53). *)
Definition number_of_N (n : N) : float :=
  SF2Prim (binary_normalize prec emax (Z.of_N n) 0 false).

End JS.

(* ================================================================= *)
(** ** Binary64 *)

Module Binary64.

(** Not negative: a zero, [+Infinity], or a finite number with a plus
    sign. *)
Definition nonneg (x : spec_float) : Prop :=
  match x with
  | S754_zero _ => True
  | S754_infinity s => s = false
  | S754_nan => False
  | S754_finite s _ _ => s = false
  end.

End Binary64.

(* ================================================================= *)
(** ** Utils: validation and formatting *)

(** The fields of a [File] the code reads. *)
Record File := mkFile {
  name : string;
  type : string;
  size : N
}.

Module Utils.

Definition SUPPORTED_TYPES : list string :=
  [ "image/png"; "image/jpeg"; "image/jpg"; "image/gif"; "image/bmp";
    "image/svg+xml" ].

Definition MAX_FILE_SIZE : N := 10 * 1024 * 1024.

Definition isValidFileType (file : File) : bool :=
  JS.includes SUPPORTED_TYPES (type file).

Definition isValidFileSize (file : File) : bool :=
  (size file <=? MAX_FILE_SIZE)%N.

(** [Math.floor(Math.log(bytes) / Math.log(1024))] for a byte count
    [bytes >= 1], taken at its mathematical value: the largest [i] with
    [1024^i <= bytes]. The runtime computes it in binary64, where
    [Math.log] is rounded; the two agree wherever the quotient of the
    logarithms is not within rounding distance of an integer, and at 1024^2
    and 1024^4, whose logarithms are that of 1024 doubled and quadrupled,
    which binary64 does exactly. Below 1024^4 the quotient
    is never that close to an integer it does not reach; the two differ at
    the three counts just below 1024^5 (2^50 - 3 to 2^50 - 1), where the
    rounded quotient is already 5.
    What is proved about the unit of a size is stated below 1024^4 or at
    1024^4 itself. *)
Definition unit_index (bytes : N) : N := (N.log2 bytes / 10)%N.

Definition sizes : list string := [ "Bytes"; "KB"; "MB"; "GB" ].

(** [formatFileSize(bytes, decimals = 2)]; every call in the repository
    leaves [decimals] out, which is [decimals = 2] here.
    [bytes / Math.pow(k, i)] divides by a power of two, which binary64 does
    exactly, so [toFixed] sees the exact quotient. [sizes[i]] is [undefined]
    outside the table.

    The text before the unit follows the runtime for [decimals <= 11]: the
    quotient is below 1024, so its rounding has at most 15 significant
    digits and [parseFloat] followed by the conversion to a string gives it
    back without its trailing zeros. With more decimals the runtime prints
    the shortest decimal of the nearest double, which can differ, and above
    100 [toFixed] throws a [RangeError]; neither is modelled, and what is
    proved about the digits is stated with a bound on [decimals]. *)
Definition formatFileSize (bytes : N) (decimals : Z) : string :=
  if (bytes =? 0)%N then "0 Bytes"
  else
    let k := 1024%N in
    let dm := if (decimals <? 0)%Z then 0%Z else decimals in
    let i := unit_index bytes in
    let d := Z.to_nat dm in
    JS.shortest_string (JS.round_scaled bytes (k ^ i) d) d
      ++ " " ++ JS.to_string (nth_error sizes (N.to_nat i)).

(** The value [validateFile] returns: [{ valid, error }]. *)
Record Validation := mkValidation {
  valid : bool;
  error : option string
}.

(** [SUPPORTED_TYPES.map(type => type.split('/')[1].toUpperCase())
    .join(', ')]. Every entry of [SUPPORTED_TYPES] has a '/', so
    [type.split('/')[1]] is defined for each of them. *)
Definition supportedFormats : string :=
  JS.join ", "
    (map (fun t => JS.toUpperCase (nth 1 (JS.split "/" t) EmptyString))
         SUPPORTED_TYPES).

Definition validateFile (file : option File) : Validation :=
  match file with
  | None => mkValidation false (Some "No file selected")
  | Some f =>
      if negb (isValidFileType f) then
        mkValidation false
          (Some ("Unsupported file type: " ++ type f
                   ++ ". Supported formats: " ++ supportedFormats))
      else if negb (isValidFileSize f) then
        mkValidation false
          (Some ("File size exceeds " ++ formatFileSize MAX_FILE_SIZE 2
                   ++ " limit. Selected file: " ++ formatFileSize (size f) 2))
      else mkValidation true None
  end.

(** [calculateReduction(originalSize, newSize)], on Numbers;
    [reduction >= 0] is [0 <= reduction]. *)
Definition calculateReduction (originalSize newSize : float) : string :=
  let reduction := ((originalSize - newSize) / originalSize * 100)%float in
  let sign := if (0 <=? reduction)%float then "-" else "+" in
  sign ++ JS.toFixed (abs reduction) 1 ++ "%".

(** [filename.split('.').pop().toUpperCase()]; [split] returns at least
    one segment, so [pop] is defined. *)
Definition getFileExtension (filename : string) : string :=
  match JS.pop (JS.split "." filename) with
  | Some extension => JS.toUpperCase extension
  | None => EmptyString
  end.

Definition generateWebPFilename (originalFilename : string) : string :=
  let nameWithoutExt :=
    JS.substring originalFilename 0 (JS.lastIndexOf "." originalFilename) in
  nameWithoutExt ++ ".webp".

End Utils.

(* ================================================================= *)
(** ** Utils.debounce

    [debounce(func, wait)] returns a function that shares one variable,
    [timeout], with the callbacks it hands to [setTimeout]. The browser's
    timers are modelled as far as this closure sees them: [setTimeout]
    returns an id it has not returned before, a timer that was set and
    neither cleared nor fired is pending, and the browser may fire a
    pending timer (in the code, once [wait] milliseconds have passed; here,
    at any moment, which allows every order of events the code can see and
    more). [A] is the type of the arguments of [func]. *)

Module Debounce.
Section Debounced.

Variable A : Type.

Record World := mkWorld {
  timeout : option N;
  next_id : N;
  pending : list (N * A);
  invoked : list A
}.

(** Before the first call: [timeout] is [undefined]. *)
Definition start (first_id : N) : World := mkWorld None first_id [] [].

(** [clearTimeout(id)]: nothing happens for [undefined] or for an id that
    is not pending. *)
Definition clearTimeout (id : option N) (timers : list (N * A))
    : list (N * A) :=
  match id with
  | None => timers
  | Some i => filter (fun t => negb (N.eqb (fst t) i)) timers
  end.

(** [executedFunction(...args)]. *)
Definition executedFunction (args : A) (w : World) : World :=
  let timers := clearTimeout (timeout w) (pending w) in
  let id := next_id w in
  mkWorld (Some id) (N.succ id) (timers ++ [(id, args)])%list (invoked w).

(** The browser fires the pending timer [id]: the timer is spent, and
    [later] runs, which clears [timeout] and calls [func] with the
    arguments of the call that set the timer. [None] when [id] is not
    pending. *)
Definition fire (id : N) (w : World) : option World :=
  match find (fun t => N.eqb (fst t) id) (pending w) with
  | None => None
  | Some (_, args) =>
      let spent := filter (fun t => negb (N.eqb (fst t) id)) (pending w) in
      Some (mkWorld (timeout w) (next_id w)
                    (clearTimeout (timeout w) spent)
                    (invoked w ++ [args])%list)
  end.

Inductive Event :=
  | Call (args : A)
  | Fire (id : N).

Definition happen (ev : Event) (w : World) : option World :=
  match ev with
  | Call args => Some (executedFunction args w)
  | Fire id => fire id w
  end.

Fixpoint run (evs : list Event) (w : World) : option World :=
  match evs with
  | [] => Some w
  | ev :: rest =>
      match happen ev w with
      | Some w' => run rest w'
      | None => None
      end
  end.

(** The arguments of the calls among the events, in order. *)
Fixpoint calls (evs : list Event) : list A :=
  match evs with
  | [] => []
  | Call args :: rest => args :: calls rest
  | Fire _ :: rest => calls rest
  end.

(** At most one timer is pending; it is the one [timeout] names, and its
    id has been handed out. *)
Definition tidy (w : World) : Prop :=
  pending w = [] \/
  exists id args,
    pending w = [(id, args)] /\ timeout w = Some id /\ (id < next_id w)%N.

End Debounced.

Arguments mkWorld {A}.
Arguments timeout {A}.
Arguments next_id {A}.
Arguments pending {A}.
Arguments invoked {A}.
Arguments start {A}.
Arguments clearTimeout {A}.
Arguments executedFunction {A}.
Arguments fire {A}.
Arguments Call {A}.
Arguments Fire {A}.
Arguments happen {A}.
Arguments run {A}.
Arguments calls {A}.
Arguments tidy {A}.

End Debounce.

(* ================================================================= *)
(** ** The browser objects the engine holds *)

(** An [HTMLImageElement] that has loaded: [src] is the data URL that
    [FileReader.readAsDataURL] produced. *)
Record Image := mkImage {
  src : string;
  naturalWidth : N;
  naturalHeight : N
}.

Module Blob.
Record t := mk {
  size : N;
  type : string
}.
End Blob.

(** The browser calls whose order and arguments matter for the lifetime of
    resources. [DrawImage] stands for the canvas being created, sized and
    drawn on; [LinkClick] for the temporary download link being clicked. *)
Inductive Effect :=
  | DrawImage (img : Image) (width height : N)
  | ToBlob (mime : string) (quality : float)
  | CreateObjectURL (blob : Blob.t) (url : string)
  | RevokeObjectURL (url : string)
  | LinkClick (href download : string)
  | SetTimeout (delay : N) (callback : Effect).

(** An object URL is issued by [URL.createObjectURL] and released by
    [URL.revokeObjectURL]. *)
Definition issued (url : string) (l : list Effect) : Prop :=
  exists blob, In (CreateObjectURL blob url) l.

Definition released (url : string) (l : list Effect) : Prop :=
  In (RevokeObjectURL url) l.

(* ================================================================= *)
(** ** ImageConverter *)

Module ImageConverter.

Record State := mkState {
  originalFile : option File;
  originalImage : option Image;
  convertedBlob : option Blob.t;
  quality : float;
  isConverting : bool
}.

(** [0.9] as binary64. *)
Definition default_quality : float := 0x1.ccccccccccccdp-1%float.

Definition initial_state : State :=
  mkState None None None default_quality false.

(** The engine together with the log of browser calls it has made. *)
Record Engine := mkEngine {
  state : State;
  log : list Effect
}.

Definition initial : Engine := mkEngine initial_state [].

(** *** Methods as state transformers that may throw *)

Inductive Completion (A : Type) :=
  | Return (a : A)
  | Throw (message : string).
Arguments Return {A} a.
Arguments Throw {A} message.

Definition M (A : Type) : Type := Engine -> Completion A * Engine.

Definition ret {A} (a : A) : M A := fun e => (Return a, e).
Definition throw {A} (message : string) : M A := fun e => (Throw message, e).

Definition bind {A B} (m : M A) (k : A -> M B) : M B :=
  fun e =>
    match m e with
    | (Return a, e') => k a e'
    | (Throw message, e') => (Throw message, e')
    end.

Notation "x <- m ;; k" := (bind m (fun x => k))
  (at level 61, m at next level, right associativity).
Notation "m ;;; k" := (bind m (fun _ => k))
  (at level 61, right associativity).

Definition get : M State := fun e => (Return (state e), e).
Definition modify (f : State -> State) : M unit :=
  fun e => (Return tt, mkEngine (f (state e)) (log e)).
Definition perform (x : Effect) : M unit :=
  fun e => (Return tt, mkEngine (state e) (log e ++ [x])%list).

(** [try { body } catch (error) { throw new Error(handler error.message) }
    finally { cleanup }]. *)
Definition try_catch_finally {A} (body : M A) (handler : string -> string)
    (cleanup : M unit) : M A :=
  fun e =>
    match body e with
    | (Return a, e') => (Return a, snd (cleanup e'))
    | (Throw message, e') => (Throw (handler message), snd (cleanup e'))
    end.

(** The part of such a [try] block that runs up to an [await]: when it
    throws, [catch] and [finally] run; when it reaches the [await] the block
    is suspended and [finally] waits for the rest. *)
Definition try_until_await {A} (body : M A) (handler : string -> string)
    (cleanup : M unit) : M A :=
  fun e =>
    match body e with
    | (Return a, e') => (Return a, e')
    | (Throw message, e') => (Throw (handler message), snd (cleanup e'))
    end.

(** Assignments to the fields of [this.state]. *)
Definition set_source (f : File) (img : Image) (s : State) : State :=
  mkState (Some f) (Some img) (convertedBlob s) (quality s) (isConverting s).
Definition set_convertedBlob (b : Blob.t) (s : State) : State :=
  mkState (originalFile s) (originalImage s) (Some b) (quality s)
          (isConverting s).
Definition set_quality (q : float) (s : State) : State :=
  mkState (originalFile s) (originalImage s) (convertedBlob s) q
          (isConverting s).
Definition set_isConverting (b : bool) (s : State) : State :=
  mkState (originalFile s) (originalImage s) (convertedBlob s) (quality s) b.

(** What reading a property of [null] throws (the wording is V8's). *)
Definition null_read (property : string) : string :=
  "Cannot read properties of null (reading '" ++ property ++ "')".

(** **** loadImageFile *)

(** The object [loadImageFile] resolves to. *)
Module ImageData.
Record t := mk {
  file : File;
  image : Image;
  format : string;
  size : N;
  width : N;
  height : N;
  dataUrl : string
}.
End ImageData.

(** Up to [await Utils.loadImage(file)]: validation only. ([error] is a
    string whenever [valid] is false.) *)
Definition loadImageFile_start (file : option File) : M File :=
  let validation := Utils.validateFile file in
  match Utils.valid validation, file with
  | true, Some f => ret f
  | _, _ =>
      throw (match Utils.error validation with
             | Some message => message
             | None => "null"
             end)
  end.

(** After the await. [decoded] is what [Utils.loadImage] settled with: the
    image, or the message it rejected with. *)
Definition loadImageFile_finish (f : File) (decoded : Image + string)
    : M ImageData.t :=
  match decoded with
  | inr message => throw message
  | inl img =>
      modify (set_source f img) ;;;
      ret (ImageData.mk f img (Utils.getFileExtension (name f)) (size f)
             (naturalWidth img) (naturalHeight img) (src img))
  end.

Definition loadImageFile (file : option File) (decoded : Image + string)
    : M ImageData.t :=
  f <- loadImageFile_start file ;; loadImageFile_finish f decoded.

(** **** convertToWebP *)

(** The object [convertToWebP] resolves to. *)
Module Conversion.
Record t := mk {
  blob : Blob.t;
  previewUrl : string;
  size : N;
  originalSize : N;
  reduction : string;
  quality : float;
  width : N;
  height : N
}.
End Conversion.

(** What the suspended call keeps in its closure: the [quality] argument
    and the canvas. *)
Record Pending := mkPending {
  pending_quality : float;
  canvas_width : N;
  canvas_height : N
}.

(** Up to [await new Promise(...)]. [quality = None] is a call without
    argument (the default is [this.state.quality]). [canvas_error] is
    [Some message] when one of the canvas calls throws. The engine throws
    plain [Error]s, told apart by their messages: 'No image loaded for
    conversion' (no source), 'Conversion already in progress' (encode in
    progress) and 'Conversion failed: ...' (encode failed). *)
Definition convertToWebP_start (quality : option float)
    (canvas_error : option string) : M Pending :=
  s <- get ;;
  let quality := match quality with Some q => q | None => ImageConverter.quality s end in
  match originalImage s with
  | None => throw "No image loaded for conversion"
  | Some img =>
      if isConverting s then throw "Conversion already in progress"
      else
        modify (set_isConverting true) ;;;
        modify (set_quality quality) ;;;
        try_until_await
          (match canvas_error with
           | Some message => throw message
           | None =>
               perform (DrawImage img (naturalWidth img) (naturalHeight img)) ;;;
               perform (ToBlob "image/webp" quality) ;;;
               ret (mkPending quality (naturalWidth img) (naturalHeight img))
           end)
          (fun message => "Conversion failed: " ++ message)
          (modify (set_isConverting false))
  end.

(** After the await. [encoded] is the argument of the [toBlob] callback
    ([None] for [null]); [url] is what [URL.createObjectURL] returns. *)
Definition convertToWebP_finish (p : Pending) (encoded : option Blob.t)
    (url : string) : M Conversion.t :=
  try_catch_finally
    (match encoded with
     | None => throw "Failed to convert image to WebP"
     | Some blob =>
         modify (set_convertedBlob blob) ;;;
         perform (CreateObjectURL blob url) ;;;
         s <- get ;;
         match originalFile s with
         | None => throw (null_read "size")
         | Some f =>
             let originalSize := size f in
             let newSize := Blob.size blob in
             let reduction :=
               Utils.calculateReduction (JS.number_of_N originalSize)
                                        (JS.number_of_N newSize) in
             ret (Conversion.mk blob url newSize originalSize reduction
                    (pending_quality p * 100)%float
                    (canvas_width p) (canvas_height p))
         end
     end)
    (fun message => "Conversion failed: " ++ message)
    (modify (set_isConverting false)).

(** A call that nothing else interleaves with. *)
Definition convertToWebP (quality : option float)
    (canvas_error : option string) (encoded : option Blob.t) (url : string)
    : M Conversion.t :=
  p <- convertToWebP_start quality canvas_error ;;
  convertToWebP_finish p encoded url.

(** **** downloadWebP, updateQuality, reset and the getters *)

(** [filename || ...]: [null] and the empty string are falsy. [url] is
    what [URL.createObjectURL] returns. *)
Definition downloadWebP (filename : option string) (url : string) : M unit :=
  s <- get ;;
  match convertedBlob s with
  | None => throw "No converted image available for download"
  | Some blob =>
      downloadName <-
        match filename with
        | Some (String a rest) => ret (String a rest)
        | _ =>
            match originalFile s with
            | None => throw (null_read "name")
            | Some f => ret (Utils.generateWebPFilename (name f))
            end
        end ;;
      perform (CreateObjectURL blob url) ;;;
      perform (LinkClick url downloadName) ;;;
      perform (SetTimeout 100 (RevokeObjectURL url))
  end.


Definition reset : M unit :=
  s <- get ;;
  match originalImage s with
  | Some img => perform (RevokeObjectURL (src img))
  | None => ret tt
  end ;;;
  modify (fun _ => initial_state).

Definition getState : M State := get.

Definition hasImage (e : Engine) : bool :=
  match originalImage (state e) with Some _ => true | None => false end.

Definition isConverted (e : Engine) : bool :=
  match convertedBlob (state e) with Some _ => true | None => false end.

(** *** The engine under cooperative scheduling

    One thread runs the calls; a call that awaits is parked until the
    browser settles its promise, and any other call may run meanwhile. *)

Inductive Suspended :=
  | AwaitingImage (f : File)
  | AwaitingBlob (p : Pending).

Record System := mkSystem {
  engine : Engine;
  suspended : list Suspended
}.

Definition boot : System := mkSystem initial [].

Inductive step : System -> System -> Prop :=
  | call_loadImageFile sys file f e' :
      loadImageFile_start file (engine sys) = (Return f, e') ->
      step sys (mkSystem e' (suspended sys ++ [AwaitingImage f])%list)
  | call_loadImageFile_throws sys file message e' :
      loadImageFile_start file (engine sys) = (Throw message, e') ->
      step sys (mkSystem e' (suspended sys))
  | settle_loadImageFile sys before f after decoded :
      suspended sys = (before ++ AwaitingImage f :: after)%list ->
      step sys (mkSystem (snd (loadImageFile_finish f decoded (engine sys)))
                         (before ++ after)%list)
  | call_convertToWebP sys quality canvas_error p e' :
      convertToWebP_start quality canvas_error (engine sys) = (Return p, e') ->
      step sys (mkSystem e' (suspended sys ++ [AwaitingBlob p])%list)
  | call_convertToWebP_throws sys quality canvas_error message e' :
      convertToWebP_start quality canvas_error (engine sys)
        = (Throw message, e') ->
      step sys (mkSystem e' (suspended sys))
  | settle_convertToWebP sys before p after encoded url :
      suspended sys = (before ++ AwaitingBlob p :: after)%list ->
      step sys (mkSystem
                  (snd (convertToWebP_finish p encoded url (engine sys)))
                  (before ++ after)%list)
  | call_downloadWebP sys filename url :
      step sys (mkSystem (snd (downloadWebP filename url (engine sys)))
                         (suspended sys))
  | call_reset sys :
      step sys (mkSystem (snd (reset (engine sys))) (suspended sys)).

Inductive reachable : System -> Prop :=
  | reachable_boot : reachable boot
  | reachable_step sys sys' :
      reachable sys -> step sys sys' -> reachable sys'.

(** What holds of [this.state] whenever a call starts or resumes: the
    in-flight flag is only ever set over a loaded image, and the image and
    its file are stored together. *)
Definition consistent (s : State) : Prop :=
  (isConverting s = true -> originalImage s <> None) /\
  (originalImage s <> None -> originalFile s <> None).

(** The four ways [convertToWebP] can leave its first half. *)
Variant start_exit (quality : option float) (canvas_error : option string)
    (e : Engine) : Completion Pending * Engine -> Prop :=
  | exit_no_image :
      originalImage (state e) = None ->
      start_exit quality canvas_error e
        (Throw "No image loaded for conversion", e)
  | exit_in_progress img :
      originalImage (state e) = Some img ->
      isConverting (state e) = true ->
      start_exit quality canvas_error e
        (Throw "Conversion already in progress", e)
  | exit_canvas_throws img message :
      originalImage (state e) = Some img ->
      isConverting (state e) = false ->
      canvas_error = Some message ->
      start_exit quality canvas_error e
        (Throw ("Conversion failed: " ++ message),
         mkEngine
           (set_isConverting false
              (set_quality
                 (match quality with
                  | Some q => q
                  | None => ImageConverter.quality (state e)
                  end)
                 (set_isConverting true (state e))))
           (log e))
  | exit_awaiting img :
      originalImage (state e) = Some img ->
      isConverting (state e) = false ->
      canvas_error = None ->
      let q := match quality with
               | Some q => q
               | None => ImageConverter.quality (state e)
               end in
      start_exit quality canvas_error e
        (Return (mkPending q (naturalWidth img) (naturalHeight img)),
         mkEngine
           (set_quality q (set_isConverting true (state e)))
           (log e ++ [DrawImage img (naturalWidth img) (naturalHeight img);
                      ToBlob "image/webp" q])%list).

(** **** getConversionStats *)

(** The object [getConversionStats] returns. *)
Module Stats.
Record t := mk {
  originalFormat : string;
  originalSize : N;
  webpSize : N;
  reductionBytes : float;
  reductionPercent : float;
  quality : float;
  width : N;
  height : N;
  timestamp : string
}.
End Stats.

(** [timestamp] is what [new Date().toISOString()] returns. The sizes are
    subtracted and divided as Numbers. *)
Definition getConversionStats (timestamp : string) : M (option Stats.t) :=
  s <- get ;;
  match originalFile s, convertedBlob s with
  | Some f, Some blob =>
      let originalSize := JS.number_of_N (size f) in
      let newSize := JS.number_of_N (Blob.size blob) in
      let reductionPercent :=
        ((originalSize - newSize) / originalSize * 100)%float in
      match originalImage s with
      | None => throw (null_read "naturalWidth")
      | Some img =>
          ret (Some (Stats.mk (Utils.getFileExtension (name f)) (size f)
                       (Blob.size blob) (originalSize - newSize)%float
                       reductionPercent (ImageConverter.quality s * 100)%float
                       (naturalWidth img) (naturalHeight img) timestamp))
      end
  | _, _ => ret None
  end.

(** *** Runs in which [reset] waits for the encoder

    The encodes that are in flight, and the runs in which [reset] is never
    called while [isConverting] is set. *)

Fixpoint encodes_in_flight (l : list Suspended) : nat :=
  match l with
  | [] => O
  | AwaitingBlob _ :: rest => S (encodes_in_flight rest)
  | AwaitingImage _ :: rest => encodes_in_flight rest
  end.

Definition is_reset (sys sys' : System) : Prop :=
  sys' = mkSystem (snd (reset (engine sys))) (suspended sys).

Inductive orderly : System -> Prop :=
  | orderly_boot : orderly boot
  | orderly_step sys sys' :
      orderly sys -> step sys sys' ->
      (is_reset sys sys' -> isConverting (state (engine sys)) = false) ->
      orderly sys'.

End ImageConverter.

(* ================================================================= *)
(** ** Sample data for the concrete runs *)

Module Sample.
Import ImageConverter.

Definition photo : File := mkFile "photo.png" "image/png" 5000000.
Definition picture : Image := mkImage "data:image/png;base64,iVBORw0KGgo=" 640 480.
Definition webp : Blob.t := Blob.mk 3000000 "image/webp".
Definition webp' : Blob.t := Blob.mk 2000000 "image/webp".

Definition other : File := mkFile "other.jpg" "image/jpeg" 4000000.
Definition other_picture : Image :=
  mkImage "data:image/jpeg;base64,/9j/4AAQSkZJRg==" 800 600.

(** After [loadImageFile(photo)] has resolved. *)
Definition loaded : Engine :=
  mkEngine (mkState (Some photo) (Some picture) None default_quality false) [].

(** After a call of [convertToWebP()] that is awaiting the encoder. *)
Definition converting : Engine :=
  mkEngine (mkState (Some photo) (Some picture) None default_quality true)
           [DrawImage picture 640 480; ToBlob "image/webp" default_quality].

(** After that call has resolved with [webp], previewed at "blob:1". *)
Definition converted : Engine :=
  mkEngine
    (mkState (Some photo) (Some picture) (Some webp) default_quality false)
    [DrawImage picture 640 480; ToBlob "image/webp" default_quality;
     CreateObjectURL webp "blob:1"].

Definition awaiting : Pending := mkPending default_quality 640 480.

End Sample.

(* ================================================================= *)
(** * Properties *)

Import ImageConverter.

(** ** How each method changes [this.state] *)

Ltac run :=
  cbv [loadImageFile loadImageFile_start loadImageFile_finish
       convertToWebP convertToWebP_start convertToWebP_finish
       downloadWebP reset getState
       try_catch_finally try_until_await
       bind ret throw get modify perform] in *;
  cbn [fst snd state log] in *.

Lemma loadImageFile_start_engine file e :
  snd (loadImageFile_start file e) = e.
Proof.
  run. destruct (Utils.valid (Utils.validateFile file)), file; reflexivity.
Qed.

Lemma loadImageFile_finish_state f decoded e :
  state (snd (loadImageFile_finish f decoded e))
  = match decoded with
    | inl img => set_source f img (state e)
    | inr _ => state e
    end.
Proof. run. destruct decoded; reflexivity. Qed.

Lemma convertToWebP_finish_clears_flag p encoded url e :
  isConverting (state (snd (convertToWebP_finish p encoded url e))) = false.
Proof.
  run. destruct encoded as [blob|]; cbn; [|reflexivity].
  destruct (originalFile (state e)); reflexivity.
Qed.

Lemma convertToWebP_finish_source p encoded url e :
  originalFile (state (snd (convertToWebP_finish p encoded url e)))
    = originalFile (state e) /\
  originalImage (state (snd (convertToWebP_finish p encoded url e)))
    = originalImage (state e).
Proof.
  run. destruct encoded as [blob|]; cbn; [|split; reflexivity].
  destruct (originalFile (state e)) eqn:Hfile; cbn; rewrite ?Hfile;
    split; reflexivity.
Qed.

Lemma downloadWebP_state filename url e :
  state (snd (downloadWebP filename url e)) = state e.
Proof.
  run. destruct (convertedBlob (state e)); [|reflexivity].
  destruct filename as [[|a rest]|]; cbn;
    try destruct (originalFile (state e)); reflexivity.
Qed.

Lemma reset_state e : state (snd (reset e)) = initial_state.
Proof. run. destruct (originalImage (state e)); reflexivity. Qed.

Lemma convertToWebP_start_exits quality canvas_error e :
  start_exit quality canvas_error e
    (convertToWebP_start quality canvas_error e).
Proof.
  run.
  destruct (originalImage (state e)) as [img|] eqn:Himg;
    [|now apply exit_no_image].
  destruct (isConverting (state e)) eqn:Hflag;
    [now apply exit_in_progress with img|].
  destruct canvas_error as [message|]; cbn.
  - now apply exit_canvas_throws with img.
  - rewrite <- app_assoc. now apply exit_awaiting.
Qed.

(** ** The invariant of the reachable states *)

Lemma consistent_initial : consistent initial_state.
Proof. split; cbn; [discriminate | congruence]. Qed.

Lemma step_consistent sys sys' :
  step sys sys' ->
  consistent (state (engine sys)) -> consistent (state (engine sys')).
Proof.
  intros Hstep [Hflag Hfile].
  destruct Hstep as
    [ sys file f e' H | sys file message e' H | sys before f after decoded _
    | sys quality canvas_error p e' H | sys quality canvas_error message e' H
    | sys before p after encoded url _ | sys filename url | sys ];
    cbn [engine].
  - apply (f_equal snd) in H. rewrite loadImageFile_start_engine in H.
    cbn in H. subst e'. now split.
  - apply (f_equal snd) in H. rewrite loadImageFile_start_engine in H.
    cbn in H. subst e'. now split.
  - rewrite loadImageFile_finish_state.
    destruct decoded as [img|]; [|now split].
    split; cbn; intros; discriminate.
  - pose proof (convertToWebP_start_exits quality canvas_error (engine sys))
      as Hexit.
    rewrite H in Hexit. inversion Hexit; subst; cbn.
    split; cbn; [congruence | assumption].
  - pose proof (convertToWebP_start_exits quality canvas_error (engine sys))
      as Hexit.
    rewrite H in Hexit. inversion Hexit; subst; cbn; now split.
  - destruct (convertToWebP_finish_source p encoded url (engine sys))
      as [Hf Hi].
    split.
    + rewrite convertToWebP_finish_clears_flag. discriminate.
    + rewrite Hf, Hi. assumption.
  - rewrite downloadWebP_state. now split.
  - rewrite reset_state. apply consistent_initial.
Qed.

Lemma reachable_consistent sys :
  reachable sys -> consistent (state (engine sys)).
Proof.
  induction 1 as [|sys sys' _ IH Hstep].
  - apply consistent_initial.
  - now apply (step_consistent sys sys').
Qed.

(** The file and its image are stored together. *)
Lemma step_source_paired sys sys' :
  step sys sys' ->
  (originalFile (state (engine sys)) = None <->
   originalImage (state (engine sys)) = None) ->
  (originalFile (state (engine sys')) = None <->
   originalImage (state (engine sys')) = None).
Proof.
  intros Hstep Hpair.
  destruct Hstep as
    [ sys file f e' H | sys file message e' H | sys before f after decoded _
    | sys quality canvas_error p e' H | sys quality canvas_error message e' H
    | sys before p after encoded url _ | sys filename url | sys ];
    cbn [engine].
  - apply (f_equal snd) in H. rewrite loadImageFile_start_engine in H.
    cbn in H. now subst e'.
  - apply (f_equal snd) in H. rewrite loadImageFile_start_engine in H.
    cbn in H. now subst e'.
  - rewrite loadImageFile_finish_state.
    destruct decoded as [img|]; [|assumption]. cbn. split; discriminate.
  - pose proof (convertToWebP_start_exits quality canvas_error (engine sys))
      as Hexit.
    rewrite H in Hexit. inversion Hexit; subst; cbn. assumption.
  - pose proof (convertToWebP_start_exits quality canvas_error (engine sys))
      as Hexit.
    rewrite H in Hexit. inversion Hexit; subst; cbn; assumption.
  - destruct (convertToWebP_finish_source p encoded url (engine sys))
      as [Hf Hi].
    now rewrite Hf, Hi.
  - now rewrite downloadWebP_state.
  - rewrite reset_state. cbn. split; reflexivity.
Qed.

Lemma reachable_source_paired sys :
  reachable sys ->
  (originalFile (state (engine sys)) = None <->
   originalImage (state (engine sys)) = None).
Proof.
  induction 1 as [|sys sys' _ IH Hstep].
  - cbn. split; reflexivity.
  - now apply (step_source_paired sys sys').
Qed.

(** ** The sample runs are runs of the engine *)

Lemma reachable_loaded : reachable (mkSystem Sample.loaded []).
Proof.
  apply reachable_step with (mkSystem initial [AwaitingImage Sample.photo]).
  - apply reachable_step with boot; [apply reachable_boot|].
    exact (call_loadImageFile boot (Some Sample.photo) Sample.photo initial
             eq_refl).
  - exact (settle_loadImageFile
             (mkSystem initial [AwaitingImage Sample.photo])
             [] Sample.photo [] (inl Sample.picture) eq_refl).
Qed.

Lemma reachable_converting :
  reachable (mkSystem Sample.converting [AwaitingBlob Sample.awaiting]).
Proof.
  apply reachable_step with (mkSystem Sample.loaded []);
    [apply reachable_loaded|].
  exact (call_convertToWebP (mkSystem Sample.loaded []) None None
           Sample.awaiting Sample.converting eq_refl).
Qed.

Lemma reachable_converted : reachable (mkSystem Sample.converted []).
Proof.
  apply reachable_step
    with (mkSystem Sample.converting [AwaitingBlob Sample.awaiting]);
    [apply reachable_converting|].
  exact (settle_convertToWebP
           (mkSystem Sample.converting [AwaitingBlob Sample.awaiting])
           [] Sample.awaiting [] (Some Sample.webp) "blob:1" eq_refl).
Qed.

(** Two Numbers that [===] tells apart are different. *)
Lemma float_neq (x y : float) :
  PrimFloat.eqb x x = true -> PrimFloat.eqb x y = false -> x <> y.
Proof. intros Hxx Hxy ->. congruence. Qed.

(** ** Single flight (C1) *)

(** C1. Single flight. In every state the engine can reach in which an
    encode is in flight ([isConverting] is true), another call of
    [convertToWebP] is rejected with 'Conversion already in progress' and
    leaves the engine as it was: the pending result, every other field of
    the state and the log of browser calls. And the flag never stays behind:
    a call that finds the flag clear either throws at once, with the flag
    clear when it returns (no image, or a canvas call that throws), or takes
    the flag and awaits the encoder, and then the flag is clear when the
    call resumes and finishes, whether it resolves or rejects and whatever
    has run in between. *)
Theorem single_flight sys :
  reachable sys ->
  isConverting (state (engine sys)) = true ->
  (forall quality canvas_error,
      convertToWebP_start quality canvas_error (engine sys)
      = (Throw "Conversion already in progress", engine sys)) /\
  (forall e quality canvas_error exit e',
      isConverting (state e) = false ->
      convertToWebP_start quality canvas_error e = (exit, e') ->
      match exit with
      | Throw _ => isConverting (state e') = false
      | Return p =>
          isConverting (state e') = true /\
          forall encoded url e'',
            isConverting
              (state (snd (convertToWebP_finish p encoded url e''))) = false
      end).
Proof.
  intros Hreach Hbusy. split.
  - intros quality canvas_error.
    destruct (reachable_consistent sys Hreach) as [Himage _].
    specialize (Himage Hbusy).
    destruct (convertToWebP_start_exits quality canvas_error (engine sys));
      congruence.
  - intros e quality canvas_error exit e' Hclear Hstart.
    pose proof (convertToWebP_start_exits quality canvas_error e) as Hexit.
    rewrite Hstart in Hexit.
    inversion Hexit; subst; cbn; try congruence; try reflexivity.
    split; [reflexivity|].
    intros. apply convertToWebP_finish_clears_flag.
Qed.

Lemma single_flight_witness :
  (forall quality canvas_error,
      convertToWebP_start quality canvas_error Sample.converting
      = (Throw "Conversion already in progress", Sample.converting)) /\
  (forall e quality canvas_error exit e',
      isConverting (state e) = false ->
      convertToWebP_start quality canvas_error e = (exit, e') ->
      match exit with
      | Throw _ => isConverting (state e') = false
      | Return p =>
          isConverting (state e') = true /\
          forall encoded url e'',
            isConverting
              (state (snd (convertToWebP_finish p encoded url e''))) = false
      end).
Proof.
  exact (single_flight
           (mkSystem Sample.converting [AwaitingBlob Sample.awaiting])
           reachable_converting eq_refl).
Defined.

(** ** Round trip (C2) *)

Lemma loadImageFile_returns file decoded e d e1 :
  loadImageFile file decoded e = (Return d, e1) ->
  exists f img,
    file = Some f /\ decoded = inl img /\
    state e1 = set_source f img (state e).
Proof.
  run. destruct (Utils.valid (Utils.validateFile file)), file as [f|];
    try discriminate.
  destruct decoded as [img|]; [|discriminate].
  intros H. inversion H; subst. now exists f, img.
Qed.

Lemma convertToWebP_returns quality canvas_error encoded url e r e2 :
  convertToWebP quality canvas_error encoded url e = (Return r, e2) ->
  let q := match quality with
           | Some q => q
           | None => ImageConverter.quality (state e)
           end in
  exists img f blob,
    originalImage (state e) = Some img /\ originalFile (state e) = Some f /\
    isConverting (state e) = false /\
    canvas_error = None /\ encoded = Some blob /\
    state e2 = set_convertedBlob blob (set_quality q (state e)) /\
    log e2 = (log e ++ [DrawImage img (naturalWidth img) (naturalHeight img);
                        ToBlob "image/webp" q;
                        CreateObjectURL blob url])%list /\
    r = Conversion.mk blob url (Blob.size blob) (size f)
          (Utils.calculateReduction (JS.number_of_N (size f))
                                    (JS.number_of_N (Blob.size blob)))
          (q * 100)%float (naturalWidth img) (naturalHeight img).
Proof.
  intros H q. unfold convertToWebP, bind in H.
  destruct (convertToWebP_start_exits quality canvas_error e)
    as [Himg | img Himg Hflag | img message Himg Hflag Herr
       | img Himg Hflag Herr q0]; try discriminate.
  revert H. run. destruct encoded as [blob|]; cbn; [|discriminate].
  destruct (originalFile (state e)) as [f|] eqn:Hfile; cbn; [|discriminate].
  intros H. inversion H; subst.
  exists img, f, blob. unfold set_convertedBlob, set_quality. cbn.
  rewrite <- app_assoc, Hflag. now repeat split.
Qed.

(** What a call that resolves has done since it resumed, in whatever
    state [e] it resumed. *)
Lemma convertToWebP_finish_returns p encoded url e r e2 :
  convertToWebP_finish p encoded url e = (Return r, e2) ->
  exists blob f,
    encoded = Some blob /\ originalFile (state e) = Some f /\
    e2 = mkEngine
           (mkState (originalFile (state e)) (originalImage (state e))
                    (Some blob) (quality (state e)) false)
           (log e ++ [CreateObjectURL blob url])%list /\
    r = Conversion.mk blob url (Blob.size blob) (size f)
          (Utils.calculateReduction (JS.number_of_N (size f))
                                    (JS.number_of_N (Blob.size blob)))
          (pending_quality p * 100)%float (canvas_width p) (canvas_height p).
Proof.
  run. destruct encoded as [blob|]; cbn; [|discriminate].
  destruct (originalFile (state e)) as [f|] eqn:Hfile; cbn; [|discriminate].
  intros H. inversion H; subst. exists blob, f.
  unfold set_isConverting, set_convertedBlob. cbn. rewrite ?Hfile.
  now repeat split.
Qed.

(** C2, as the code has it. For every quality [q], after a
    [loadImageFile] that resolved [hasImage] is true, and when a
    [convertToWebP(q)] accepted after it resolves, in whatever state the
    engine has reached while it was awaiting the encoder, [hasImage] is
    true and the [quality] field of the object it resolves to is [q * 100],
    the percentage. *)
Theorem encode_round_trip
    file decoded q canvas_error encoded url e d e1 p e2 sys r e3 :
  loadImageFile file decoded e = (Return d, e1) ->
  convertToWebP_start (Some q) canvas_error e1 = (Return p, e2) ->
  reachable sys ->
  convertToWebP_finish p encoded url (engine sys) = (Return r, e3) ->
  hasImage e1 = true /\
  hasImage e3 = true /\
  Conversion.quality r = (q * 100)%float.
Proof.
  intros Hload Hstart Hreach Hfinish.
  split.
  { destruct (loadImageFile_returns _ _ _ _ _ Hload)
      as (f & img & _ & _ & Hstate).
    unfold hasImage. now rewrite Hstate. }
  pose proof (convertToWebP_start_exits (Some q) canvas_error e1) as Hexit.
  rewrite Hstart in Hexit.
  inversion Hexit as [| | |img Himg Hflag Herr q0 Hp]; subst.
  destruct (convertToWebP_finish_returns _ _ _ _ _ _ Hfinish)
    as (blob & f & _ & Hfile & -> & ->).
  split; [|reflexivity].
  unfold hasImage. cbn.
  destruct (reachable_source_paired sys Hreach) as [_ Hpair].
  destruct (originalImage (state (engine sys))); [reflexivity|].
  rewrite (Hpair eq_refl) in Hfile. discriminate.
Qed.

Lemma encode_round_trip_witness :
  hasImage Sample.loaded = true /\
  hasImage Sample.converted = true /\
  Conversion.quality
    (Conversion.mk Sample.webp "blob:1" 3000000 5000000 "-40.0%"
       (default_quality * 100)%float 640 480)
  = (default_quality * 100)%float.
Proof.
  exact (encode_round_trip (Some Sample.photo) (inl Sample.picture)
           default_quality None (Some Sample.webp) "blob:1" initial
           _ Sample.loaded Sample.awaiting Sample.converting
           (mkSystem Sample.converting [AwaitingBlob Sample.awaiting])
           _ Sample.converted
           eq_refl eq_refl reachable_converting eq_refl).
Defined.

(** C2 as stated fails: at quality 0.5 the object [convertToWebP] resolves
    to carries [quality = 50], not 0.5 (and not a value in 0.0-1.0). *)
Lemma encode_round_trip_counterexample :
  exists d r e2,
    loadImageFile (Some Sample.photo) (inl Sample.picture) initial
    = (Return d, Sample.loaded) /\
    convertToWebP (Some 0.5%float) None (Some Sample.webp) "blob:1"
                  Sample.loaded
    = (Return r, e2) /\
    hasImage e2 = true /\
    Conversion.quality r = 50%float /\
    Conversion.quality r <> 0.5%float /\
    (Conversion.quality r <=? 1)%float = false.
Proof.
  do 3 eexists. split; [reflexivity|]. split; [reflexivity|].
  cbn. repeat split. now apply float_neq.
Qed.

(** ** What a failed encode leaves behind (C3) *)

(** C3, as the code has it. A failed encode changes nothing but the stored
    quality and the in-flight flag. Rejected for want of an image, or
    because an encode is in flight, [convertToWebP] leaves the engine
    untouched, the flag included. A call that gets past the two guards sets
    [state.quality] to the quality asked for and takes the flag before
    anything can fail, and touches nothing else. When a canvas call then
    throws, the flag is cleared at once; when the encoder's output is
    [null], the call clears the flag when it resumes, in whatever state it
    resumes, and changes no other field and makes no browser call. So when
    no other call runs in between, the state after a [null] from the
    encoder is the state before the call with the quality asked for. *)
Theorem encode_failure_state :
  (forall quality canvas_error e message e',
      convertToWebP_start quality canvas_error e = (Throw message, e') ->
      let s := state e in
      let q := match quality with
               | Some q => q
               | None => ImageConverter.quality s
               end in
      (message = "No image loaded for conversion" /\
       originalImage s = None /\ e' = e) \/
      (message = "Conversion already in progress" /\
       isConverting s = true /\ e' = e) \/
      ((exists cause,
           canvas_error = Some cause /\
           message = "Conversion failed: " ++ cause) /\
       isConverting s = false /\
       e' = mkEngine
              (mkState (originalFile s) (originalImage s) (convertedBlob s)
                       q false)
              (log e))) /\
  (forall quality canvas_error e p e1,
      convertToWebP_start quality canvas_error e = (Return p, e1) ->
      let s := state e in
      let q := match quality with
               | Some q => q
               | None => ImageConverter.quality s
               end in
      isConverting s = false /\
      state e1 = mkState (originalFile s) (originalImage s) (convertedBlob s)
                         q true) /\
  (forall p url e,
      let s := state e in
      convertToWebP_finish p None url e
      = (Throw "Conversion failed: Failed to convert image to WebP",
         mkEngine
           (mkState (originalFile s) (originalImage s) (convertedBlob s)
                    (ImageConverter.quality s) false)
           (log e))) /\
  (forall quality url e img,
      let s := state e in
      let q := match quality with
               | Some q => q
               | None => ImageConverter.quality s
               end in
      originalImage s = Some img ->
      isConverting s = false ->
      convertToWebP quality None None url e
      = (Throw "Conversion failed: Failed to convert image to WebP",
         mkEngine
           (mkState (originalFile s) (originalImage s) (convertedBlob s)
                    q false)
           (log e ++ [DrawImage img (naturalWidth img) (naturalHeight img);
                      ToBlob "image/webp" q])%list)).
Proof.
  split; [|split; [|split]].
  - intros quality canvas_error e message e' H. cbv zeta.
    pose proof (convertToWebP_start_exits quality canvas_error e) as Hexit.
    rewrite H in Hexit.
    inversion Hexit as [Himg | img Himg Hflag | img cause Himg Hflag Herr|];
      subst.
    + left. now repeat split.
    + right; left. now repeat split.
    + right; right. split; [now exists cause|]. now split.
  - intros quality canvas_error e p e1 H. cbv zeta.
    pose proof (convertToWebP_start_exits quality canvas_error e) as Hexit.
    rewrite H in Hexit.
    inversion Hexit as [| | |img Himg Hflag Herr q0 Hp]; subst.
    now split.
  - intros p url e. reflexivity.
  - intros quality url e img. cbv zeta. intros Himg Hflag.
    run. rewrite Himg, Hflag. cbn.
    unfold set_isConverting, set_quality. cbn.
    rewrite ?Himg, <- !app_assoc. reflexivity.
Qed.

Lemma encode_failure_state_witness :
  convertToWebP_start (Some 0.5%float) (Some "context lost") Sample.loaded
  = (Throw "Conversion failed: context lost",
     mkEngine
       (mkState (Some Sample.photo) (Some Sample.picture) None 0.5%float
                false)
       []) /\
  state (snd (convertToWebP_start (Some 0.5%float) None Sample.loaded))
  = mkState (Some Sample.photo) (Some Sample.picture) None 0.5%float true /\
  convertToWebP_finish Sample.awaiting None "blob:1" Sample.converting
  = (Throw "Conversion failed: Failed to convert image to WebP",
     mkEngine
       (mkState (Some Sample.photo) (Some Sample.picture) None
                default_quality false)
       (log Sample.converting)) /\
  convertToWebP (Some 0.5%float) None None "blob:1" Sample.loaded
  = (Throw "Conversion failed: Failed to convert image to WebP",
     mkEngine
       (mkState (Some Sample.photo) (Some Sample.picture) None 0.5%float
                false)
       [DrawImage Sample.picture 640 480; ToBlob "image/webp" 0.5%float]).
Proof.
  destruct encode_failure_state as (Hthrow & Hreturn & Hnull & Hwhole).
  split; [|split; [|split]].
  - destruct (Hthrow (Some 0.5%float) (Some "context lost") Sample.loaded
                _ _ eq_refl)
      as [(H & _) | [(H & _) | (_ & _ & H)]];
      [discriminate H | discriminate H | reflexivity].
  - exact (proj2 (Hreturn (Some 0.5%float) None Sample.loaded _ _ eq_refl)).
  - exact (Hnull Sample.awaiting "blob:1" Sample.converting).
  - exact (Hwhole (Some 0.5%float) "blob:1" Sample.loaded Sample.picture
             eq_refl eq_refl).
Defined.

(** C3 as stated fails. An encode at quality 0.5 whose encoder produces
    [null] leaves [state.quality] at 0.5, not at the 0.9 it was before the
    call. *)
Lemma encode_failure_state_counterexample :
  exists e',
    convertToWebP (Some 0.5%float) None None "blob:1" Sample.loaded
    = (Throw "Conversion failed: Failed to convert image to WebP", e') /\
    ImageConverter.quality (state Sample.loaded) = default_quality /\
    ImageConverter.quality (state e') = 0.5%float /\
    ImageConverter.quality (state e')
    <> ImageConverter.quality (state Sample.loaded).
Proof.
  eexists. split; [reflexivity|]. cbn. repeat split.
  now apply float_neq.
Qed.

(** ** Loading over a result (C4) *)

Lemma loadImageFile_keeps_convertedBlob file decoded e :
  convertedBlob (state (snd (loadImageFile file decoded e)))
  = convertedBlob (state e).
Proof.
  run. destruct (Utils.valid (Utils.validateFile file)), file as [f|];
    try reflexivity.
  destruct decoded; reflexivity.
Qed.

(** C4, the code at the failing input. With [photo.png] converted, loading
    [other.jpg] succeeds and replaces the source, but the blob converted
    from [photo.png] stays in the state: [isConverted] is still true, and
    [downloadWebP] offers that blob under the name derived from the new
    file. *)
Theorem load_over_result_keeps_stale_blob :
  exists d e',
    loadImageFile (Some Sample.other) (inl Sample.other_picture)
                  Sample.converted
    = (Return d, e') /\
    originalFile (state e') = Some Sample.other /\
    originalImage (state e') = Some Sample.other_picture /\
    isConverted e' = true /\
    convertedBlob (state e') = Some Sample.webp /\
    downloadWebP None "blob:2" e'
    = (Return tt,
       mkEngine (state e')
         (log e' ++ [CreateObjectURL Sample.webp "blob:2";
                     LinkClick "blob:2" "other.webp";
                     SetTimeout 100 (RevokeObjectURL "blob:2")])%list).
Proof. do 2 eexists. split; [reflexivity|]. now repeat split. Qed.

(** ** Preview handles (C5) *)

Lemma reset_log e :
  log (snd (reset e))
  = (log e ++ match originalImage (state e) with
              | Some img => [RevokeObjectURL (src img)]
              | None => []
              end)%list.
Proof.
  run. destruct (originalImage (state e)); cbn; [reflexivity|].
  now rewrite app_nil_r.
Qed.

(** C5, as the code has it. The engine keeps no preview handle. An encode
    makes no URL call before it awaits the encoder (it draws and asks for
    the blob), and when it resolves, in whatever state it resumed, it has
    made exactly one more browser call: [URL.createObjectURL] for the blob
    it resolves to, whose result is the [previewUrl] it returns. Neither
    half of an encode, however it ends, calls [URL.revokeObjectURL]. [reset]
    makes exactly one browser call when an image is loaded,
    [URL.revokeObjectURL] on that image's [src], and none otherwise, and
    puts the state back to its initial value. *)
Theorem preview_handle_lifecycle :
  (forall quality canvas_error e p e1,
      convertToWebP_start quality canvas_error e = (Return p, e1) ->
      exists img,
        originalImage (state e) = Some img /\
        log e1 = (log e ++ [DrawImage img (naturalWidth img)
                                      (naturalHeight img);
                            ToBlob "image/webp" (pending_quality p)])%list) /\
  (forall p encoded url e r e',
      convertToWebP_finish p encoded url e = (Return r, e') ->
      encoded = Some (Conversion.blob r) /\
      Conversion.previewUrl r = url /\
      log e' = (log e ++ [CreateObjectURL (Conversion.blob r) url])%list) /\
  (forall e,
      reset e
      = (Return tt,
         mkEngine initial_state
           (log e ++ match originalImage (state e) with
                     | Some img => [RevokeObjectURL (src img)]
                     | None => []
                     end)%list)) /\
  (forall quality canvas_error p encoded url e e' u,
      e' = snd (convertToWebP_start quality canvas_error e) \/
      e' = snd (convertToWebP_finish p encoded url e) ->
      In (RevokeObjectURL u) (log e') -> In (RevokeObjectURL u) (log e)).
Proof.
  split; [|split; [|split]].
  - intros quality canvas_error e p e1 H.
    pose proof (convertToWebP_start_exits quality canvas_error e) as Hexit.
    rewrite H in Hexit.
    inversion Hexit as [| | |img Himg Hflag Herr q0 Hp]; subst.
    now exists img.
  - intros p encoded url e r e' H.
    destruct (convertToWebP_finish_returns _ _ _ _ _ _ H)
      as (blob & f & -> & _ & -> & ->).
    now repeat split.
  - intros e. run. destruct (originalImage (state e)); cbn; [reflexivity|].
    now rewrite app_nil_r.
  - intros quality canvas_error p encoded url e e' u [-> | ->].
    + pose proof (convertToWebP_start_exits quality canvas_error e) as Hexit.
      destruct (convertToWebP_start quality canvas_error e) as [c e1].
      inversion Hexit; subst; cbn; try (intros Hin; exact Hin).
      intros Hin. apply in_app_or in Hin.
      destruct Hin as [Hin | [Hin | [Hin | []]]];
        [assumption | discriminate | discriminate].
    + run. destruct encoded as [blob|]; cbn;
        [destruct (originalFile (state e)); cbn|];
        intros Hin; try assumption;
        apply in_app_or in Hin;
        (destruct Hin as [Hin | [Hin | []]]; [assumption | discriminate]).
Qed.

Lemma preview_handle_lifecycle_witness :
  (exists img,
      originalImage (state Sample.loaded) = Some img /\
      log Sample.converting
      = (log Sample.loaded
           ++ [DrawImage img (naturalWidth img) (naturalHeight img);
               ToBlob "image/webp" (pending_quality Sample.awaiting)])%list) /\
  (Some Sample.webp = Some Sample.webp /\
   "blob:1" = "blob:1" /\
   log Sample.converted
   = (log Sample.converting ++ [CreateObjectURL Sample.webp "blob:1"])%list) /\
  reset Sample.converted
  = (Return tt,
     mkEngine initial_state
       (log Sample.converted ++ [RevokeObjectURL (src Sample.picture)])%list).
Proof.
  destruct preview_handle_lifecycle as (Hstart & Hfinish & Hreset & _).
  split; [|split].
  - exact (Hstart None None Sample.loaded Sample.awaiting Sample.converting
             eq_refl).
  - exact (Hfinish Sample.awaiting (Some Sample.webp) "blob:1"
             Sample.converting _ Sample.converted eq_refl).
  - exact (Hreset Sample.converted).
Defined.

(** C5 as stated fails. Load [photo.png], convert it (preview "blob:1"),
    convert it again (preview "blob:2"), then reset: both preview handles
    were issued and neither was ever released; the only release is that of
    the source image's [src]. *)
Lemma preview_handle_lifecycle_counterexample :
  exists r1 e1 r2 e2 e3,
    convertToWebP None None (Some Sample.webp) "blob:1" Sample.loaded
    = (Return r1, e1) /\
    convertToWebP None None (Some Sample.webp') "blob:2" e1
    = (Return r2, e2) /\
    reset e2 = (Return tt, e3) /\
    Conversion.previewUrl r1 = "blob:1" /\
    Conversion.previewUrl r2 = "blob:2" /\
    ~ released "blob:1" (log e2) /\
    ~ released "blob:1" (log e3) /\
    ~ released "blob:2" (log e3) /\
    released (src Sample.picture) (log e3).
Proof.
  do 5 eexists. do 3 (split; [reflexivity|]).
  unfold released. cbn.
  repeat split; try (intros H; intuition discriminate).
  intuition.
Qed.

(** ** Reset during an encode (C6) *)

(** C6, the code at the failing input. With an encode in flight
    ([photo.png] loaded, [convertToWebP()] awaiting the encoder), [reset]
    is not rejected: it returns normally, revokes the image's [src] and
    leaves the initial state, with the in-flight flag cleared under the
    encode that is still pending. From then on a [convertToWebP] is
    rejected for want of an image, not as in progress, and the pending
    encode, when the encoder answers, stores its blob in the emptied state
    and fails reading the size of a file that is no longer there. *)
Theorem reset_under_pending_encode :
  reachable (mkSystem Sample.converting [AwaitingBlob Sample.awaiting]) /\
  isConverting (state Sample.converting) = true /\
  reset Sample.converting
  = (Return tt,
     mkEngine initial_state
       (log Sample.converting ++ [RevokeObjectURL (src Sample.picture)])%list) /\
  isConverting (state (snd (reset Sample.converting))) = false /\
  state (snd (reset Sample.converting)) <> state Sample.converting /\
  (forall quality canvas_error,
      fst (convertToWebP_start quality canvas_error
             (snd (reset Sample.converting)))
      = Throw "No image loaded for conversion") /\
  convertToWebP_finish Sample.awaiting (Some Sample.webp) "blob:1"
    (snd (reset Sample.converting))
  = (Throw ("Conversion failed: " ++ null_read "size"),
     mkEngine
       (mkState None None (Some Sample.webp) default_quality false)
       (log Sample.converting
          ++ [RevokeObjectURL (src Sample.picture);
              CreateObjectURL Sample.webp "blob:1"])%list).
Proof.
  split; [exact reachable_converting|].
  repeat split. cbn. discriminate.
Qed.

(* ================================================================= *)
(** * Utils *)

(** ** Validation (C7) *)

Lemma includes_In l x : JS.includes l x = true <-> In x l.
Proof.
  unfold JS.includes. rewrite existsb_exists. split.
  - intros (y & Hy & Heq). apply String.eqb_eq in Heq. now subst.
  - intros H. exists x. split; [assumption | apply String.eqb_refl].
Qed.

(** C7. [validateFile] checks in a fixed order. Without a file it fails
    with 'No file selected'. With a file whose MIME type is not one of the
    six of the allow-list it fails with the unsupported-type message, which
    lists the allow-list as PNG, JPEG, JPG, GIF, BMP, SVG+XML, whatever the
    size. With an allowed type and a size above 10,485,760 bytes it fails
    with the size message. Otherwise, and so at exactly 10,485,760 bytes, it
    succeeds. *)
Theorem validateFile_order :
  let allowed :=
    [ "image/png"; "image/jpeg"; "image/jpg"; "image/gif"; "image/bmp";
      "image/svg+xml" ] in
  Utils.validateFile None
  = Utils.mkValidation false (Some "No file selected") /\
  (forall f,
      ~ In (type f) allowed ->
      Utils.validateFile (Some f)
      = Utils.mkValidation false
          (Some ("Unsupported file type: " ++ type f
                   ++ ". Supported formats: PNG, JPEG, JPG, GIF, BMP, SVG+XML"))) /\
  (forall f,
      In (type f) allowed -> (10485760 < size f)%N ->
      Utils.validateFile (Some f)
      = Utils.mkValidation false
          (Some ("File size exceeds 10 MB limit. Selected file: "
                   ++ Utils.formatFileSize (size f) 2))) /\
  (forall f,
      In (type f) allowed -> (size f <= 10485760)%N ->
      Utils.validateFile (Some f) = Utils.mkValidation true None).
Proof.
  intros allowed. split; [reflexivity|].
  assert (Htype : forall f,
             Utils.isValidFileType f = true <-> In (type f) allowed)
    by (intros f; apply includes_In).
  repeat split; intros f.
  - intros Hout. unfold Utils.validateFile.
    destruct (Utils.isValidFileType f) eqn:Hin; [|reflexivity].
    now apply Htype in Hin.
  - intros Hin Hbig. unfold Utils.validateFile.
    apply Htype in Hin. rewrite Hin. cbn [negb].
    unfold Utils.isValidFileSize.
    replace (size f <=? Utils.MAX_FILE_SIZE)%N with false; [reflexivity|].
    symmetry. apply N.leb_gt. exact Hbig.
  - intros Hin Hsmall. unfold Utils.validateFile.
    apply Htype in Hin. rewrite Hin. cbn [negb].
    unfold Utils.isValidFileSize.
    replace (size f <=? Utils.MAX_FILE_SIZE)%N with true; [reflexivity|].
    symmetry. apply N.leb_le. exact Hsmall.
Qed.

Lemma validateFile_order_witness :
  Utils.validateFile (Some (mkFile "scan.tiff" "image/tiff" 1000))
  = Utils.mkValidation false
      (Some "Unsupported file type: image/tiff. Supported formats: PNG, JPEG, JPG, GIF, BMP, SVG+XML") /\
  Utils.validateFile (Some (mkFile "big.png" "image/png" 10485761))
  = Utils.mkValidation false
      (Some "File size exceeds 10 MB limit. Selected file: 10 MB") /\
  Utils.validateFile (Some (mkFile "edge.png" "image/png" 10485760))
  = Utils.mkValidation true None.
Proof.
  destruct validateFile_order as (_ & Htype & Hsize & Hok).
  split; [|split].
  - apply (Htype (mkFile "scan.tiff" "image/tiff" 1000)).
    cbn. intuition discriminate.
  - apply (Hsize (mkFile "big.png" "image/png" 10485761)).
    + cbn. auto.
    + reflexivity.
  - apply (Hok (mkFile "edge.png" "image/png" 10485760)).
    + cbn. auto.
    + cbn. discriminate.
Defined.

(** ** Size formatting (C8) *)

Lemma formatFileSize_zero decimals : Utils.formatFileSize 0 decimals = "0 Bytes".
Proof. reflexivity. Qed.

Lemma formatFileSize_examples :
  Utils.formatFileSize 1536 2 = "1.5 KB" /\
  Utils.formatFileSize 1048576 2 = "1 MB" /\
  Utils.formatFileSize 1023 2 = "1023 Bytes" /\
  Utils.formatFileSize 5000000 2 = "4.77 MB" /\
  Utils.formatFileSize 1073741824 2 = "1 GB".
Proof. repeat split; vm_compute; reflexivity. Qed.

(** The unit of a positive byte count is in the table exactly below
    1024^4. *)
Lemma unit_in_table bytes :
  (0 < bytes)%N ->
  ((bytes < 1024 ^ 4)%N <->
   In (JS.to_string (nth_error Utils.sizes (N.to_nat (Utils.unit_index bytes))))
      Utils.sizes).
Proof.
  intros Hpos. unfold Utils.unit_index.
  change (1024 ^ 4)%N with (2 ^ 40)%N.
  rewrite (N.log2_lt_pow2 bytes 40 Hpos).
  assert (Hdiv : (N.log2 bytes < 40 <-> N.log2 bytes / 10 < 4)%N).
  { split; intros H.
    - apply N.Div0.div_lt_upper_bound. exact H.
    - destruct (N.lt_ge_cases (N.log2 bytes) 40) as [|Hge]; [assumption|].
      apply (N.Div0.div_le_mono _ _ 10) in Hge.
      change (40 / 10)%N with 4%N in Hge. lia. }
  rewrite Hdiv. generalize (N.log2 bytes / 10)%N. intros i. split.
  - intros Hi.
    assert (Hcases : i = 0%N \/ i = 1%N \/ i = 2%N \/ i = 3%N) by lia.
    destruct Hcases as [-> | [-> | [-> | ->]]]; cbn; auto.
  - intros Hin.
    destruct (N.lt_ge_cases i 4) as [|Hge]; [assumption|exfalso].
    assert (Hnone : nth_error Utils.sizes (N.to_nat i) = None)
      by (apply nth_error_None; cbn; lia).
    rewrite Hnone in Hin. cbn in Hin. intuition discriminate.
Qed.

(** C8, the code at the failing input. The unit index is not clamped: at
    1024^4 bytes it is 4, [sizes[4]] is [undefined], and the output carries
    none of the four units. *)
Theorem formatFileSize_above_table :
  Utils.unit_index (1024 ^ 4) = 4%N /\
  nth_error Utils.sizes 4 = None /\
  Utils.formatFileSize (1024 ^ 4) 2 = "1 undefined".
Proof. repeat split; vm_compute; reflexivity. Qed.

(** ** Output names (C9) *)

Lemma lastIndexOf_from_absent c s i found :
  ~ In c (list_ascii_of_string s) ->
  JS.lastIndexOf_from c s i found = found.
Proof.
  revert i found. induction s as [|a rest IH]; intros i found Hout;
    [reflexivity|].
  cbn in *. destruct (Ascii.eqb_spec a c) as [->|_].
  - exfalso. apply Hout. now left.
  - apply IH. intros Hin. apply Hout. now right.
Qed.

Lemma lastIndexOf_from_last c stem ext i found :
  ~ In c (list_ascii_of_string ext) ->
  JS.lastIndexOf_from c (stem ++ String c ext) i found
  = (i + Z.of_nat (String.length stem))%Z.
Proof.
  intros Hout. revert i found.
  induction stem as [|a rest IH]; intros i found; cbn [append String.length].
  - cbn. rewrite Ascii.eqb_refl.
    rewrite lastIndexOf_from_absent by assumption. lia.
  - cbn [JS.lastIndexOf_from]. rewrite IH. lia.
Qed.

Lemma take_append stem rest : JS.take (String.length stem) (stem ++ rest) = stem.
Proof. induction stem as [|a stem IH]; cbn; [now destruct rest | now rewrite IH]. Qed.

Lemma length_append (a b : string) :
  String.length (a ++ b) = (String.length a + String.length b)%nat.
Proof. induction a as [|c a IH]; cbn; [reflexivity | now rewrite IH]. Qed.

Lemma substring_from_zero s stop :
  JS.substring s 0 stop
  = JS.take (Z.to_nat (JS.clamp_index (Z.of_nat (String.length s)) stop)) s.
Proof.
  unfold JS.substring, JS.clamp_index.
  set (len := Z.of_nat (String.length s)).
  assert (Hlen : (0 <= len)%Z) by (subst len; lia).
  replace (Z.max 0 (Z.min 0 len)) with 0%Z by lia.
  set (b := Z.max 0 (Z.min stop len)).
  replace (Z.min 0 b) with 0%Z by lia.
  replace (Z.max 0 b - 0)%Z with b by lia.
  reflexivity.
Qed.

(** With an extension, the last one is replaced by [.webp]. *)
Lemma generateWebPFilename_with_extension stem ext :
  ~ In "."%char (list_ascii_of_string ext) ->
  Utils.generateWebPFilename (stem ++ "." ++ ext) = stem ++ ".webp".
Proof.
  intros Hout. unfold Utils.generateWebPFilename, JS.lastIndexOf.
  change ("." ++ ext) with (String "." ext).
  rewrite lastIndexOf_from_last by assumption.
  rewrite substring_from_zero, length_append. unfold JS.clamp_index.
  replace (Z.max 0 _) with (Z.of_nat (String.length stem)) by lia.
  now rewrite Nat2Z.id, take_append.
Qed.

(** Without any '.', the whole name is dropped. *)
Lemma generateWebPFilename_without_extension name :
  ~ In "."%char (list_ascii_of_string name) ->
  Utils.generateWebPFilename name = ".webp".
Proof.
  intros Hout. unfold Utils.generateWebPFilename, JS.lastIndexOf.
  rewrite lastIndexOf_from_absent by assumption.
  rewrite substring_from_zero. unfold JS.clamp_index.
  replace (Z.max 0 _) with 0%Z by lia.
  reflexivity.
Qed.

(** C9, the code at the failing input. The two names with an extension
    come out as claimed, but for a name without '.', [lastIndexOf] is -1,
    [substring(0, -1)] is empty, and the output is [.webp] alone. *)
Theorem generateWebPFilename_no_dot :
  Utils.generateWebPFilename "photo.png" = "photo.webp" /\
  Utils.generateWebPFilename "my.photo.jpeg" = "my.photo.webp" /\
  JS.lastIndexOf "." "photo" = (-1)%Z /\
  JS.substring "photo" 0 (-1) = "" /\
  Utils.generateWebPFilename "photo" = ".webp".
Proof. repeat split. Qed.

(** ** Reduction percentage (C10) *)

(** *** Rounding keeps the sign *)

Section Rounding.

Local Open Scope Z_scope.

Lemma shr_1_nonneg r : 0 <= shr_m r -> 0 <= shr_m (shr_1 r).
Proof.
  destruct r as [m r s]. cbn.
  destruct m as [|[p|p|]|[p|p|]]; cbn; lia.
Qed.

Lemma iter_shr_1_nonneg p r :
  0 <= shr_m r -> 0 <= shr_m (iter_pos shr_1 p r).
Proof.
  revert r. induction p as [p IH|p IH|]; intros r Hr; cbn.
  - apply IH, IH, shr_1_nonneg, Hr.
  - apply IH, IH, Hr.
  - apply shr_1_nonneg, Hr.
Qed.

Lemma shr_fexp_nonneg m e l :
  0 <= m -> 0 <= shr_m (fst (shr_fexp prec emax m e l)).
Proof.
  intros Hm. unfold shr_fexp, shr.
  assert (H0 : 0 <= shr_m (shr_record_of_loc m l))
    by (destruct l as [|[]]; exact Hm).
  destruct (fexp prec emax (Zdigits2 m + e) - e); cbn [fst];
    [assumption | now apply iter_shr_1_nonneg | assumption].
Qed.

Lemma round_nearest_even_nonneg m l : 0 <= m -> 0 <= round_nearest_even m l.
Proof.
  intros Hm. unfold round_nearest_even.
  destruct l as [|[]]; try destruct (Z.even m); lia.
Qed.

Lemma binary_round_aux_nonneg m e l :
  0 <= m -> Binary64.nonneg (binary_round_aux prec emax false m e l).
Proof.
  intros Hm. unfold binary_round_aux.
  pose proof (shr_fexp_nonneg m e l Hm) as H1.
  destruct (shr_fexp prec emax m e l) as [r1 e1]. cbn [fst] in H1.
  pose proof (shr_fexp_nonneg
                (round_nearest_even (shr_m r1) (loc_of_shr_record r1)) e1
                loc_Exact (round_nearest_even_nonneg _ _ H1)) as H2.
  destruct (shr_fexp prec emax _ e1 loc_Exact) as [r2 e2]. cbn [fst] in H2.
  destruct (shr_m r2) as [|p|p]; cbn; [exact I | | lia].
  destruct (Z.leb _ _); cbn; reflexivity.
Qed.

Lemma binary_normalize_nonneg m e :
  0 <= m -> Binary64.nonneg (binary_normalize prec emax m e false).
Proof.
  intros Hm. destruct m as [|p|p]; [exact I | | lia].
  unfold binary_normalize, binary_round.
  destruct (shl_align p e _) as [mz ez].
  now apply binary_round_aux_nonneg.
Qed.

Lemma SFmul_nonneg x m e :
  Binary64.nonneg x -> Binary64.nonneg (SF64mul x (S754_finite false m e)).
Proof.
  destruct x as [s|s| |s mx ex]; cbn; try easy.
  - intros ->. reflexivity.
  - intros ->. now apply binary_round_aux_nonneg.
Qed.

Lemma SFdiv_nonneg x m e :
  Binary64.nonneg x -> Binary64.nonneg (SF64div x (S754_finite false m e)).
Proof.
  destruct x as [s|s| |s mx ex]; cbn -[SFdiv_core_binary]; try easy.
  - intros ->. reflexivity.
  - intros ->. unfold SFdiv_core_binary.
    set (m' := match _ with Z0 => _ | Zpos _ => _ | Zneg _ => _ end).
    assert (Hm' : 0 <= m').
    { subst m'. destruct (_ - _ - _) as [|s|s]; [lia | | lia].
      apply Z.shiftl_nonneg. lia. }
    pose proof (Z.div_pos m' (Zpos m) Hm' ltac:(lia)) as Hq.
    unfold Z.div in Hq.
    destruct (Z.div_eucl m' (Zpos m)) as [q r]. cbn [fst] in Hq.
    now apply binary_round_aux_nonneg.
Qed.

Lemma SFleb_zero_nonneg x :
  Binary64.nonneg x -> SFleb (S754_zero false) x = true.
Proof.
  destruct x as [s|s| |s m e]; cbn; try easy; now intros ->.
Qed.


Lemma digits2_pos_bounds m :
  2 ^ (Zpos (digits2_pos m) - 1) <= Zpos m < 2 ^ Zpos (digits2_pos m).
Proof.
  induction m as [m IH|m IH|]; cbn [digits2_pos];
    rewrite ?Pos2Z.inj_succ; [| |cbn; lia].
  - replace (Z.succ (Zpos (digits2_pos m)) - 1)
      with (Z.succ (Zpos (digits2_pos m) - 1)) by lia.
    rewrite !Z.pow_succ_r by lia. lia.
  - replace (Z.succ (Zpos (digits2_pos m)) - 1)
      with (Z.succ (Zpos (digits2_pos m) - 1)) by lia.
    rewrite !Z.pow_succ_r by lia. lia.
Qed.

Lemma iter_xO_shift m d : Zpos (Pos.iter xO m d) = Zpos m * 2 ^ Zpos d.
Proof.
  induction d as [|d IH] using Pos.peano_ind.
  - cbn. lia.
  - rewrite Pos.iter_succ, Pos2Z.inj_succ, Z.pow_succ_r by lia.
    rewrite Pos2Z.inj_xO, IH. lia.
Qed.

Lemma shl_align_value m e e' :
  e' <= e -> Zpos (fst (shl_align m e e')) = Zpos m * 2 ^ (e - e').
Proof.
  intros Hle. unfold shl_align.
  destruct (e' - e) as [|d|d] eqn:Hd; cbn [fst].
  - replace (e - e') with 0 by lia. lia.
  - lia.
  - rewrite iter_xO_shift. f_equal. f_equal. lia.
Qed.

(** What validity says of a finite binary64: at most 53 digits, exactly 53
    above the smallest exponent. *)
Lemma valid_finite s m e :
  valid_binary (S754_finite s m e) = true ->
  -1074 <= e /\ Zpos (digits2_pos m) <= 53 /\
  (-1074 < e -> Zpos (digits2_pos m) = 53).
Proof.
  cbn [SpecFloat.valid_binary].
  unfold bounded, canonical_mantissa, fexp, SpecFloat.emin, prec, emax.
  intros H. apply andb_prop in H. destruct H as [H _].
  apply Z.eqb_eq in H. lia.
Qed.

(** [o - n] is not negative when [n <= o]. *)
Lemma SFsub_nonneg mo eo n :
  valid_binary (S754_finite false mo eo) = true -> valid_binary n = true ->
  SFleb n (S754_finite false mo eo) = true ->
  Binary64.nonneg (SF64sub (S754_finite false mo eo) n).
Proof.
  intros Ho Hn Hle.
  destruct n as [sn|sn| |sn mn en];
    [ reflexivity | destruct sn; [reflexivity | discriminate]
    | discriminate | ].
  unfold SF64sub, SFsub. apply binary_normalize_nonneg.
  destruct sn; unfold cond_Zopp; [lia|].
  destruct (valid_finite _ _ _ Ho) as (_ & _ & Hdo).
  destruct (valid_finite _ _ _ Hn) as (Hen & Hdn & _).
  pose proof (digits2_pos_bounds mo) as Hmo.
  pose proof (digits2_pos_bounds mn) as Hmn.
  unfold SFleb, SFcompare in Hle.
  destruct (Z.compare_spec en eo) as [Heq|Hlt|Hgt]; [| |discriminate].
  - subst eo. rewrite Z.min_id, !shl_align_value by lia.
    rewrite Z.sub_diag. change (2 ^ 0) with 1.
    assert (Hm : (mn <= mo)%positive).
    { unfold Pos.le, Pos.compare. destruct (Pos.compare_cont Eq mn mo); easy. }
    lia.
  - rewrite Z.min_r, !shl_align_value by lia.
    rewrite Z.sub_diag. change (2 ^ 0) with 1.
    rewrite (Hdo ltac:(lia)) in Hmo.
    assert (H2 : 2 ^ 1 <= 2 ^ (eo - en))
      by (apply Z.pow_le_mono_r; lia).
    assert (H53 : 2 ^ Zpos (digits2_pos mn) <= 2 ^ 53)
      by (apply Z.pow_le_mono_r; lia).
    change (2 ^ (53 - 1)) with 4503599627370496 in Hmo.
    change (2 ^ 53) with 9007199254740992 in H53.
    change (2 ^ 1) with 2 in H2.
    nia.
Qed.

End Rounding.


(** A finite Number above zero is a positive binary64 with a mantissa. *)
Lemma positive_finite n :
  is_finite n = true -> (0 <? n)%float = true ->
  exists m e, Prim2SF n = S754_finite false m e.
Proof.
  unfold is_finite, is_nan, is_infinity.
  rewrite ltb_spec, !eqb_spec, abs_spec.
  change (Prim2SF 0) with (S754_zero false).
  change (Prim2SF infinity) with (S754_infinity false).
  destruct (Prim2SF n) as [s | s | | s m e]; cbn; try discriminate.
  - destruct s; discriminate.
  - intros _. destruct s; [discriminate|]. intros _. now exists m, e.
Qed.

(** [n - n] is [+0] for every finite [n]. *)
Lemma sub_diag n s m e :
  Prim2SF n = S754_finite s m e -> (n - n)%float = 0%float.
Proof.
  intros H. apply Prim2SF_inj. rewrite sub_spec, H.
  unfold SF64sub, SFsub. rewrite Z.sub_diag. reflexivity.
Qed.

(** [+0 / n] is [+0] for every positive finite [n]. *)
Lemma zero_div n m e :
  Prim2SF n = S754_finite false m e -> (0 / n)%float = 0%float.
Proof.
  intros H. apply Prim2SF_inj. rewrite div_spec, H. reflexivity.
Qed.

(** The reduction is not negative when the new size is at most the
    original one. *)
Lemma reduction_nonneg o n :
  is_finite o = true -> (0 <? o)%float = true -> (n <=? o)%float = true ->
  (0 <=? (o - n) / o * 100)%float = true.
Proof.
  intros Hfinite Hpos Hle.
  destruct (positive_finite o Hfinite Hpos) as (m & e & Ho).
  rewrite leb_spec in Hle |- *.
  rewrite mul_spec, div_spec, sub_spec.
  change (Prim2SF 0) with (S754_zero false).
  change (Prim2SF 100) with (S754_finite false 7036874417766400 (-46)).
  apply SFleb_zero_nonneg, SFmul_nonneg.
  pose proof (Prim2SF_valid o) as Hvalid.
  rewrite Ho in Hle, Hvalid |- *.
  apply SFdiv_nonneg, SFsub_nonneg;
    [exact Hvalid | apply Prim2SF_valid | exact Hle].
Qed.

(** C10. For every original size above zero (every finite Number above
    zero) and every new size that is not larger, [calculateReduction]
    chooses the sign '-'; and when the two sizes are equal the result is
    "-0.0%": the reduction is [+0], and the test [reduction >= 0] holds
    for it. *)
Theorem calculateReduction_minus_sign (originalSize newSize : float) :
  is_finite originalSize = true ->
  (0 <? originalSize)%float = true ->
  (newSize <=? originalSize)%float = true ->
  Utils.calculateReduction originalSize newSize
  = "-" ++ JS.toFixed
             (abs ((originalSize - newSize) / originalSize * 100)%float) 1
        ++ "%" /\
  Utils.calculateReduction originalSize originalSize = "-0.0%".
Proof.
  intros Hfinite Hpos Hle. split.
  - unfold Utils.calculateReduction.
    now rewrite (reduction_nonneg _ _ Hfinite Hpos Hle).
  - destruct (positive_finite _ Hfinite Hpos) as (m & e & H).
    unfold Utils.calculateReduction.
    rewrite (sub_diag _ false m e H), (zero_div _ m e H).
    reflexivity.
Qed.

Lemma calculateReduction_minus_sign_witness :
  Utils.calculateReduction 5000000 3000000 = "-40.0%" /\
  Utils.calculateReduction 5000000 5000000 = "-0.0%".
Proof.
  exact (calculateReduction_minus_sign 5000000%float 3000000%float
           eq_refl eq_refl eq_refl).
Defined.

(* ================================================================= *)
(** * Further properties of the engine *)

(** ** Loading *)

Lemma invalid_has_error file :
  Utils.valid (Utils.validateFile file) = false ->
  exists message, Utils.error (Utils.validateFile file) = Some message.
Proof.
  unfold Utils.validateFile.
  destruct file as [f|]; [|intros _; now eexists].
  destruct (Utils.isValidFileType f); cbn [negb];
    [|intros _; now eexists].
  destruct (Utils.isValidFileSize f); cbn [negb];
    [discriminate | intros _; now eexists].
Qed.

(** X1. [loadImageFile] is all or nothing. When it rejects, the engine is
    as it was, and the message is the one [validateFile] gave (the file was
    never decoded) or, for a file that passed validation, the one the
    decoder rejected with. When it resolves, the file passed validation and
    was decoded, only [originalFile] and [originalImage] have changed, no
    browser call was made on the way, and the object it resolves to
    describes that file and that image. *)
Theorem loadImageFile_all_or_nothing file decoded e :
  match loadImageFile file decoded e with
  | (Throw message, e') =>
      e' = e /\
      ((Utils.valid (Utils.validateFile file) = false /\
        Utils.error (Utils.validateFile file) = Some message) \/
       (Utils.valid (Utils.validateFile file) = true /\
        decoded = inr message))
  | (Return d, e') =>
      exists f img,
        file = Some f /\ decoded = inl img /\
        Utils.valid (Utils.validateFile file) = true /\
        e' = mkEngine
               (mkState (Some f) (Some img) (convertedBlob (state e))
                        (quality (state e)) (isConverting (state e)))
               (log e) /\
        d = ImageData.mk f img (Utils.getFileExtension (name f)) (size f)
              (naturalWidth img) (naturalHeight img) (src img)
  end.
Proof.
  pose proof (invalid_has_error file) as Herror. run.
  destruct (Utils.valid (Utils.validateFile file)) eqn:Hvalid.
  - destruct file as [f|]; [|discriminate].
    destruct decoded as [img|message]; cbn.
    + exists f, img. unfold set_source. now repeat split.
    + split; [reflexivity|]. now right.
  - destruct (Herror eq_refl) as [message Hmessage]. rewrite Hmessage.
    destruct file as [f|]; cbn; (split; [reflexivity | now left]).
Qed.

(** ** Reset *)

(** X2. [reset] never throws, and a second [reset] in a row does nothing at
    all: the state is already the initial one and no browser call is
    made. *)
Theorem reset_idempotent e :
  fst (reset e) = Return tt /\
  state (snd (reset e)) = initial_state /\
  reset (snd (reset e)) = (Return tt, snd (reset e)).
Proof.
  run. destruct (originalImage (state e)); cbn; repeat split.
Qed.

(** X3. After [reset] the engine answers as a fresh one: no image, no
    result, the default quality; [convertToWebP] is rejected for want of an
    image and [downloadWebP] for want of a result, both leaving the engine
    as it is, and [getConversionStats] returns [null]. *)
Theorem reset_starts_over e quality canvas_error filename url timestamp :
  let e0 := snd (reset e) in
  hasImage e0 = false /\
  isConverted e0 = false /\
  ImageConverter.quality (state e0) = default_quality /\
  convertToWebP_start quality canvas_error e0
  = (Throw "No image loaded for conversion", e0) /\
  downloadWebP filename url e0
  = (Throw "No converted image available for download", e0) /\
  getConversionStats timestamp e0 = (Return None, e0).
Proof.
  cbv zeta. unfold getConversionStats, hasImage, isConverted. run.
  destruct (originalImage (state e)); cbn; repeat split.
Qed.

(** ** Download *)

(** X4. [downloadWebP] never changes the state. When it throws, it has made
    no browser call: either there is no result, or no name was given and
    there is no file to derive one from. When it returns, it has issued
    exactly one object URL, for the stored result, clicked a link to it
    under the given name (a name derived from the file's when none, or an
    empty one, was given), and scheduled the release of that URL 100 ms
    later. *)
Theorem downloadWebP_outcomes filename url e :
  let given :=
    match filename with
    | Some (String a rest) => Some (String a rest)
    | _ => None
    end in
  match downloadWebP filename url e with
  | (Throw message, e') =>
      e' = e /\
      ((convertedBlob (state e) = None /\
        message = "No converted image available for download") \/
       (convertedBlob (state e) <> None /\ given = None /\
        originalFile (state e) = None))
  | (Return _, e') =>
      state e' = state e /\
      exists blob downloadName,
        convertedBlob (state e) = Some blob /\
        log e' = (log e ++ [CreateObjectURL blob url;
                            LinkClick url downloadName;
                            SetTimeout 100 (RevokeObjectURL url)])%list /\
        match given, originalFile (state e) with
        | Some custom, _ => downloadName = custom
        | None, Some f => downloadName = Utils.generateWebPFilename (name f)
        | None, None => False
        end
  end.
Proof.
  cbv zeta. run.
  destruct (convertedBlob (state e)) as [blob|] eqn:Hblob; cbn;
    [|split; [reflexivity | now left]].
  assert (Hsome : Some blob <> None) by discriminate.
  destruct filename as [[|a rest]|]; cbn;
    try (destruct (originalFile (state e)) as [f|] eqn:Hfile; cbn);
    try (split; [reflexivity | now right]);
    (split; [reflexivity|]); exists blob; eexists;
    rewrite <- !app_assoc; cbn; repeat split; reflexivity.
Qed.

(** X5. What an encode resolved to is what is downloaded next. When a
    [convertToWebP] resolves, in whatever state it resumed, a file is
    stored, and a [downloadWebP()] called right after returns normally and
    offers the very blob the conversion resolved to, under the name of the
    file stored at that moment with its extension replaced by [.webp]. (That
    file is the one the encode was started for only when no other load has
    finished while the encode was awaiting the encoder.) *)
Theorem convert_then_download p encoded url e r e1 url' :
  convertToWebP_finish p encoded url e = (Return r, e1) ->
  exists f,
    originalFile (state e) = Some f /\
    originalFile (state e1) = Some f /\
    convertedBlob (state e1) = Some (Conversion.blob r) /\
    downloadWebP None url' e1
    = (Return tt,
       mkEngine (state e1)
         (log e1 ++ [CreateObjectURL (Conversion.blob r) url';
                     LinkClick url' (Utils.generateWebPFilename (name f));
                     SetTimeout 100 (RevokeObjectURL url')])%list).
Proof.
  intros H.
  destruct (convertToWebP_finish_returns _ _ _ _ _ _ H)
    as (blob & f & _ & Hfile & -> & ->).
  exists f. clear H. repeat split; [assumption..|].
  run. rewrite Hfile. cbn. now rewrite <- !app_assoc.
Qed.

Lemma convert_then_download_witness :
  exists f,
    originalFile (state Sample.converting) = Some f /\
    originalFile (state Sample.converted) = Some f /\
    convertedBlob (state Sample.converted) = Some Sample.webp /\
    downloadWebP None "blob:2" Sample.converted
    = (Return tt,
       mkEngine (state Sample.converted)
         (log Sample.converted
            ++ [CreateObjectURL Sample.webp "blob:2";
                LinkClick "blob:2" (Utils.generateWebPFilename (name f));
                SetTimeout 100 (RevokeObjectURL "blob:2")])%list).
Proof.
  exact (convert_then_download Sample.awaiting (Some Sample.webp) "blob:1"
           Sample.converting _ Sample.converted "blob:2" eq_refl).
Defined.

(** ** What the engine releases *)

Lemma convertToWebP_finish_log p encoded url e :
  exists suffix,
    log (snd (convertToWebP_finish p encoded url e)) = (log e ++ suffix)%list /\
    forall u, ~ In (RevokeObjectURL u) suffix.
Proof.
  run. destruct encoded as [blob|]; cbn.
  - exists [CreateObjectURL blob url]. split.
    + destruct (originalFile (state e)); reflexivity.
    + intros u [H|[]]. discriminate.
  - exists []. split; [now rewrite app_nil_r | intros u []].
Qed.

Lemma downloadWebP_log filename url e :
  exists suffix,
    log (snd (downloadWebP filename url e)) = (log e ++ suffix)%list /\
    forall u, ~ In (RevokeObjectURL u) suffix.
Proof.
  run. destruct (convertedBlob (state e)) as [blob|]; cbn;
    [|exists []; split; [now rewrite app_nil_r | intros u []]].
  assert (Hnone : exists suffix : list Effect,
             log e = (log e ++ suffix)%list /\
             forall u, ~ In (RevokeObjectURL u) suffix)
    by (exists []; split; [now rewrite app_nil_r | intros u []]).
  destruct filename as [[|a rest]|]; cbn;
    try (destruct (originalFile (state e)) as [f|]; cbn);
    try exact Hnone;
    (eexists; split; [rewrite <- !app_assoc; cbn; reflexivity|]);
    intros u H; cbn in H; intuition discriminate.
Qed.

(** X6. The log of browser calls only grows, and the only object URL a
    step of the engine releases itself is the [src] of the image loaded at
    that moment, which only [reset] does. Loading, converting and
    downloading release nothing (downloading only schedules the release of
    the URL it has just created). *)
Theorem step_releases sys sys' :
  step sys sys' ->
  exists suffix,
    log (engine sys') = (log (engine sys) ++ suffix)%list /\
    forall u,
      In (RevokeObjectURL u) suffix ->
      is_reset sys sys' /\
      exists img,
        originalImage (state (engine sys)) = Some img /\ u = src img.
Proof.
  assert (Hquiet : forall (l : list Effect),
             exists suffix : list Effect,
               l = (l ++ suffix)%list /\
               forall u, In (RevokeObjectURL u) suffix ->
                 is_reset sys sys' /\
                 exists img,
                   originalImage (state (engine sys)) = Some img /\
                   u = src img)
    by (intros l; exists []; split; [now rewrite app_nil_r | intros u []]).
  intros Hstep.
  destruct Hstep as
    [ sys file f e' H | sys file message e' H | sys before f after decoded _
    | sys quality canvas_error p e' H | sys quality canvas_error message e' H
    | sys before p after encoded url _ | sys filename url | sys ];
    cbn [engine].
  - apply (f_equal snd) in H. rewrite loadImageFile_start_engine in H.
    cbn in H. subst e'. apply Hquiet.
  - apply (f_equal snd) in H. rewrite loadImageFile_start_engine in H.
    cbn in H. subst e'. apply Hquiet.
  - replace (log (snd (loadImageFile_finish f decoded (engine sys))))
      with (log (engine sys)) by (run; now destruct decoded).
    apply Hquiet.
  - pose proof (convertToWebP_start_exits quality canvas_error (engine sys))
      as Hexit.
    rewrite H in Hexit. inversion Hexit; subst; cbn.
    eexists. split; [reflexivity|].
    intros u Hu. cbn in Hu. intuition discriminate.
  - pose proof (convertToWebP_start_exits quality canvas_error (engine sys))
      as Hexit.
    rewrite H in Hexit. inversion Hexit; subst; cbn; apply Hquiet.
  - destruct (convertToWebP_finish_log p encoded url (engine sys))
      as (suffix & Hlog & Hnone).
    exists suffix. split; [assumption|]. intros u Hu. now apply Hnone in Hu.
  - destruct (downloadWebP_log filename url (engine sys))
      as (suffix & Hlog & Hnone).
    exists suffix. split; [assumption|]. intros u Hu. now apply Hnone in Hu.
  - rewrite reset_log.
    destruct (originalImage (state (engine sys))) as [img|];
      [|exists []; split; [reflexivity | intros u []]].
    eexists. split; [reflexivity|].
    intros u [Hu|[]]. injection Hu as <-.
    split; [reflexivity | now exists img].
Qed.

Lemma step_releases_witness :
  exists suffix,
    log (snd (reset Sample.converted))
    = (log Sample.converted ++ suffix)%list /\
    forall u,
      In (RevokeObjectURL u) suffix ->
      is_reset (mkSystem Sample.converted [])
               (mkSystem (snd (reset Sample.converted)) []) /\
      exists img,
        originalImage (state Sample.converted) = Some img /\ u = src img.
Proof.
  exact (step_releases (mkSystem Sample.converted [])
           (mkSystem (snd (reset Sample.converted)) [])
           (call_reset (mkSystem Sample.converted []))).
Defined.

(** ** Single flight, for the whole system *)

Lemma encodes_in_flight_app l l' :
  encodes_in_flight (l ++ l')%list
  = (encodes_in_flight l + encodes_in_flight l')%nat.
Proof.
  induction l as [|[f|p] l IH]; cbn; [reflexivity | assumption | now rewrite IH].
Qed.

Lemma orderly_balanced sys :
  orderly sys ->
  encodes_in_flight (suspended sys)
  = if isConverting (state (engine sys)) then 1%nat else 0%nat.
Proof.
  induction 1 as [|sys sys' _ IH Hstep Hreset]; [reflexivity|].
  destruct Hstep as
    [ sys file f e' H | sys file message e' H | sys before f after decoded Hs
    | sys quality canvas_error p e' H | sys quality canvas_error message e' H
    | sys before p after encoded url Hs | sys filename url | sys ];
    cbn [engine suspended].
  - apply (f_equal snd) in H. rewrite loadImageFile_start_engine in H.
    cbn in H. subst e'. rewrite encodes_in_flight_app. cbn. lia.
  - apply (f_equal snd) in H. rewrite loadImageFile_start_engine in H.
    cbn in H. now subst e'.
  - rewrite loadImageFile_finish_state. rewrite Hs in IH.
    rewrite encodes_in_flight_app in *. cbn in IH.
    now destruct decoded.
  - pose proof (convertToWebP_start_exits quality canvas_error (engine sys))
      as Hexit.
    rewrite H in Hexit. inversion Hexit as [| | |img Himg Hflag Herr]; subst.
    cbn. rewrite encodes_in_flight_app, IH, Hflag. reflexivity.
  - pose proof (convertToWebP_start_exits quality canvas_error (engine sys))
      as Hexit.
    rewrite H in Hexit.
    inversion Hexit as [|  |img cause Himg Hflag Herr|]; subst;
      try assumption.
    cbn. now rewrite IH, Hflag.
  - rewrite convertToWebP_finish_clears_flag. rewrite Hs in IH.
    rewrite encodes_in_flight_app in *. cbn in IH.
    destruct (isConverting (state (engine sys))); lia.
  - now rewrite downloadWebP_state.
  - rewrite reset_state. cbn. rewrite IH, (Hreset eq_refl). reflexivity.
Qed.


(** X7. As long as [reset] is not called while an encode is in flight, the
    flag tells the truth: in every state of such a run, exactly one encode
    is awaiting the encoder when [isConverting] is set, and none when it is
    clear. So at most one encode is ever in flight. *)
Theorem orderly_single_flight sys :
  orderly sys ->
  encodes_in_flight (suspended sys)
  = (if isConverting (state (engine sys)) then 1%nat else 0%nat) /\
  (encodes_in_flight (suspended sys) <= 1)%nat.
Proof.
  intros Horderly. rewrite (orderly_balanced sys Horderly).
  split; [reflexivity|]. destruct (isConverting (state (engine sys))); lia.
Qed.

Lemma orderly_single_flight_witness :
  encodes_in_flight [AwaitingBlob Sample.awaiting]
  = (if isConverting (state Sample.converting) then 1%nat else 0%nat) /\
  (encodes_in_flight [AwaitingBlob Sample.awaiting] <= 1)%nat.
Proof.
  refine (orderly_single_flight
            (mkSystem Sample.converting [AwaitingBlob Sample.awaiting]) _).
  apply orderly_step with (mkSystem Sample.loaded []).
  - apply orderly_step with (mkSystem initial [AwaitingImage Sample.photo]).
    + apply orderly_step with boot; [apply orderly_boot | |reflexivity].
      exact (call_loadImageFile boot (Some Sample.photo) Sample.photo initial
               eq_refl).
    + exact (settle_loadImageFile
               (mkSystem initial [AwaitingImage Sample.photo])
               [] Sample.photo [] (inl Sample.picture) eq_refl).
    + reflexivity.
  - exact (call_convertToWebP (mkSystem Sample.loaded []) None None
             Sample.awaiting Sample.converting eq_refl).
  - reflexivity.
Defined.

(** X8. That proviso is needed. Calling [reset] while an encode is in
    flight clears the flag under it; after loading again, a second encode is
    accepted while the first is still awaiting the encoder: a state with two
    encodes in flight is reachable. *)
Theorem reset_breaks_single_flight :
  exists sys,
    reachable sys /\
    encodes_in_flight (suspended sys) = 2%nat /\
    isConverting (state (engine sys)) = true.
Proof.
  pose (s1 := mkSystem (snd (reset Sample.converting))
                       [AwaitingBlob Sample.awaiting]).
  pose (s2 := mkSystem (engine s1)
                       [AwaitingBlob Sample.awaiting;
                        AwaitingImage Sample.photo]).
  pose (s3 := mkSystem
                (snd (loadImageFile_finish Sample.photo (inl Sample.picture)
                        (engine s2)))
                [AwaitingBlob Sample.awaiting]).
  pose (s4 := mkSystem
                (snd (convertToWebP_start None None (engine s3)))
                [AwaitingBlob Sample.awaiting; AwaitingBlob Sample.awaiting]).
  exists s4. split; [|split; reflexivity].
  assert (H1 : reachable s1).
  { apply reachable_step
      with (mkSystem Sample.converting [AwaitingBlob Sample.awaiting]);
      [apply reachable_converting|].
    exact (call_reset
             (mkSystem Sample.converting [AwaitingBlob Sample.awaiting])). }
  assert (H2 : reachable s2).
  { apply reachable_step with s1; [exact H1|].
    exact (call_loadImageFile s1 (Some Sample.photo) Sample.photo (engine s1)
             eq_refl). }
  assert (H3 : reachable s3).
  { apply reachable_step with s2; [exact H2|].
    exact (settle_loadImageFile s2 [AwaitingBlob Sample.awaiting]
             Sample.photo [] (inl Sample.picture) eq_refl). }
  apply reachable_step with s3; [exact H3|].
  exact (call_convertToWebP s3 None None Sample.awaiting
           (snd (convertToWebP_start None None (engine s3))) eq_refl).
Qed.

(** ** The quality that is remembered *)

(** X9. Where the quality is kept. A [convertToWebP(q)] that gets past the
    two guards stores [q] in [state.quality] before it awaits the encoder,
    also when a canvas call then throws. The rest of the call, when the
    encoder answers, never changes [state.quality], whatever the state it
    resumes in and whether it resolves or fails. A [convertToWebP()]
    without argument sends the [state.quality] it finds to the encoder.
    [reset] puts [state.quality] back to 0.9, and neither half of
    [loadImageFile] nor [downloadWebP] changes it. So the next call without
    argument encodes at the last quality asked for, unless [reset] or
    another encode has run in between. *)
Theorem quality_is_remembered :
  (forall q canvas_error e img,
      originalImage (state e) = Some img ->
      isConverting (state e) = false ->
      ImageConverter.quality
        (state (snd (convertToWebP_start (Some q) canvas_error e))) = q) /\
  (forall p encoded url e,
      ImageConverter.quality
        (state (snd (convertToWebP_finish p encoded url e)))
      = ImageConverter.quality (state e)) /\
  (forall canvas_error e p e1,
      convertToWebP_start None canvas_error e = (Return p, e1) ->
      pending_quality p = ImageConverter.quality (state e) /\
      exists img,
        originalImage (state e) = Some img /\
        log e1 = (log e ++ [DrawImage img (naturalWidth img)
                                      (naturalHeight img);
                            ToBlob "image/webp"
                                   (ImageConverter.quality (state e))])%list) /\
  (forall e,
      ImageConverter.quality (state (snd (reset e))) = default_quality) /\
  (forall file f decoded filename url e,
      ImageConverter.quality (state (snd (loadImageFile_start file e)))
      = ImageConverter.quality (state e) /\
      ImageConverter.quality (state (snd (loadImageFile_finish f decoded e)))
      = ImageConverter.quality (state e) /\
      ImageConverter.quality (state (snd (downloadWebP filename url e)))
      = ImageConverter.quality (state e)).
Proof.
  split; [|split; [|split; [|split]]].
  - intros q canvas_error e img Himg Hflag. run. rewrite Himg, Hflag.
    now destruct canvas_error.
  - intros p encoded url e. run.
    destruct encoded as [blob|]; cbn; [|reflexivity].
    now destruct (originalFile (state e)).
  - intros canvas_error e p e1 H.
    pose proof (convertToWebP_start_exits None canvas_error e) as Hexit.
    rewrite H in Hexit.
    inversion Hexit as [| | |img Himg Hflag Herr q0 Hp]; subst.
    split; [reflexivity|]. now exists img.
  - intros e. now rewrite reset_state.
  - intros file f decoded filename url e.
    rewrite loadImageFile_start_engine, loadImageFile_finish_state,
      downloadWebP_state.
    now destruct decoded.
Qed.

Lemma quality_is_remembered_witness :
  ImageConverter.quality
    (state (snd (convertToWebP_start (Some 0.5%float) None Sample.loaded)))
  = 0.5%float /\
  ImageConverter.quality
    (state (snd (convertToWebP_finish Sample.awaiting None "blob:1"
                   Sample.converting)))
  = default_quality /\
  (pending_quality Sample.awaiting = default_quality /\
   exists img,
     originalImage (state Sample.loaded) = Some img /\
     log Sample.converting
     = ([] ++ [DrawImage img (naturalWidth img) (naturalHeight img);
               ToBlob "image/webp" default_quality])%list) /\
  ImageConverter.quality (state (snd (reset Sample.converted)))
  = default_quality.
Proof.
  destruct quality_is_remembered
    as (Hstart & Hfinish & Hdefault & Hreset & _).
  split; [|split; [|split]].
  - exact (Hstart 0.5%float None Sample.loaded Sample.picture
             eq_refl eq_refl).
  - exact (Hfinish Sample.awaiting None "blob:1" Sample.converting).
  - exact (Hdefault None Sample.loaded Sample.awaiting Sample.converting
             eq_refl).
  - exact (Hreset Sample.converted).
Defined.

(** ** Statistics *)

(** X10. In every state the engine can reach, [getConversionStats] never
    throws and never changes anything. It returns [null] exactly when there
    is no file or no result; otherwise the sizes are those of the stored
    file and the stored blob, the quality is [state.quality * 100], and the
    dimensions are those of the stored image. *)
Theorem getConversionStats_reads sys timestamp :
  reachable sys ->
  let s := state (engine sys) in
  match getConversionStats timestamp (engine sys) with
  | (Throw _, _) => False
  | (Return None, e') =>
      e' = engine sys /\ (originalFile s = None \/ convertedBlob s = None)
  | (Return (Some stats), e') =>
      e' = engine sys /\
      exists f blob img,
        originalFile s = Some f /\ convertedBlob s = Some blob /\
        originalImage s = Some img /\
        Stats.originalFormat stats = Utils.getFileExtension (name f) /\
        Stats.originalSize stats = size f /\
        Stats.webpSize stats = Blob.size blob /\
        Stats.quality stats = (ImageConverter.quality s * 100)%float /\
        Stats.width stats = naturalWidth img /\
        Stats.height stats = naturalHeight img /\
        Stats.timestamp stats = timestamp
  end.
Proof.
  intros Hreach. cbv zeta.
  pose proof (reachable_source_paired sys Hreach) as Hpair.
  unfold getConversionStats. run.
  destruct (originalFile (state (engine sys))) as [f|] eqn:Hfile; cbn;
    [|split; [reflexivity | now left]].
  destruct (convertedBlob (state (engine sys))) as [blob|] eqn:Hblob; cbn;
    [|split; [reflexivity | now right]].
  destruct (originalImage (state (engine sys))) as [img|] eqn:Himg; cbn.
  - split; [reflexivity|]. exists f, blob, img. now repeat split.
  - destruct Hpair as [_ Hpair]. now specialize (Hpair eq_refl).
Qed.

Lemma getConversionStats_reads_witness :
  match getConversionStats "2025-01-01T00:00:00.000Z" Sample.converted with
  | (Throw _, _) => False
  | (Return None, e') =>
      e' = Sample.converted /\
      (originalFile (state Sample.converted) = None \/
       convertedBlob (state Sample.converted) = None)
  | (Return (Some stats), e') =>
      e' = Sample.converted /\
      exists f blob img,
        originalFile (state Sample.converted) = Some f /\
        convertedBlob (state Sample.converted) = Some blob /\
        originalImage (state Sample.converted) = Some img /\
        Stats.originalFormat stats = Utils.getFileExtension (name f) /\
        Stats.originalSize stats = size f /\
        Stats.webpSize stats = Blob.size blob /\
        Stats.quality stats
        = (ImageConverter.quality (state Sample.converted) * 100)%float /\
        Stats.width stats = naturalWidth img /\
        Stats.height stats = naturalHeight img /\
        Stats.timestamp stats = "2025-01-01T00:00:00.000Z"
  end.
Proof.
  exact (getConversionStats_reads (mkSystem Sample.converted [])
           "2025-01-01T00:00:00.000Z" reachable_converted).
Defined.

(** X11. The statistics next to what the conversion returned. When a
    [convertToWebP] resolves, in whatever state the engine has reached
    while it was awaiting the encoder, a [getConversionStats] called right
    after returns an object with the same two sizes, and its
    [reductionPercent] is the number whose sign and one-decimal rendering
    make up the conversion's [reduction] string. Its quality and dimensions
    are read from the state at that moment: they are the conversion's
    wherever the stored quality and the stored image's dimensions are still
    the ones the encode took when it started, which another load, encode or
    [reset] in between can change. *)
Theorem stats_agree_with_conversion p encoded url sys r e1 timestamp :
  reachable sys ->
  convertToWebP_finish p encoded url (engine sys) = (Return r, e1) ->
  exists stats img,
    getConversionStats timestamp e1 = (Return (Some stats), e1) /\
    originalImage (state (engine sys)) = Some img /\
    Stats.originalSize stats = Conversion.originalSize r /\
    Stats.webpSize stats = Conversion.size r /\
    Conversion.reduction r
    = (if (0 <=? Stats.reductionPercent stats)%float then "-" else "+")
        ++ JS.toFixed (abs (Stats.reductionPercent stats)) 1 ++ "%" /\
    Stats.quality stats
    = (ImageConverter.quality (state (engine sys)) * 100)%float /\
    Stats.width stats = naturalWidth img /\
    Stats.height stats = naturalHeight img /\
    (pending_quality p = ImageConverter.quality (state (engine sys)) ->
     Stats.quality stats = Conversion.quality r) /\
    (canvas_width p = naturalWidth img ->
     Stats.width stats = Conversion.width r) /\
    (canvas_height p = naturalHeight img ->
     Stats.height stats = Conversion.height r).
Proof.
  intros Hreach H.
  destruct (convertToWebP_finish_returns _ _ _ _ _ _ H)
    as (blob & f & _ & Hfile & -> & ->).
  clear H.
  destruct (reachable_source_paired sys Hreach) as [_ Hpair].
  destruct (originalImage (state (engine sys))) as [img|] eqn:Himg.
  2:{ rewrite (Hpair eq_refl) in Hfile. discriminate. }
  unfold getConversionStats. run. rewrite ?Hfile, ?Himg. cbn.
  eexists. exists img. split; [reflexivity|]. cbn.
  repeat split; try reflexivity.
  - intros ->. reflexivity.
  - intros ->. reflexivity.
  - intros ->. reflexivity.
Qed.

Lemma stats_agree_with_conversion_witness :
  exists stats img,
    getConversionStats "2025-01-01T00:00:00.000Z" Sample.converted
    = (Return (Some stats), Sample.converted) /\
    originalImage (state Sample.converting) = Some img /\
    Stats.originalSize stats = 5000000%N /\
    Stats.webpSize stats = 3000000%N /\
    "-40.0%"
    = (if (0 <=? Stats.reductionPercent stats)%float then "-" else "+")
        ++ JS.toFixed (abs (Stats.reductionPercent stats)) 1 ++ "%" /\
    Stats.quality stats = (default_quality * 100)%float /\
    Stats.width stats = naturalWidth img /\
    Stats.height stats = naturalHeight img /\
    (default_quality = default_quality ->
     Stats.quality stats = (default_quality * 100)%float) /\
    (640%N = naturalWidth img -> Stats.width stats = 640%N) /\
    (480%N = naturalHeight img -> Stats.height stats = 480%N).
Proof.
  exact (stats_agree_with_conversion Sample.awaiting (Some Sample.webp)
           "blob:1"
           (mkSystem Sample.converting [AwaitingBlob Sample.awaiting])
           _ Sample.converted "2025-01-01T00:00:00.000Z"
           reachable_converting eq_refl).
Defined.

(** ** Percentages *)





(* ================================================================= *)
(** * Further properties of Utils *)

(** ** Extensions and output names *)

Lemma split_acc_nonempty c s cur : JS.split_acc c s cur <> [].
Proof.
  revert cur. induction s as [|a rest IH]; intros cur; cbn; [discriminate|].
  destruct (Ascii.eqb a c); [discriminate | apply IH].
Qed.

Lemma pop_cons x l : l <> [] -> JS.pop (x :: l) = JS.pop l.
Proof.
  unfold JS.pop. cbn. intros Hl.
  destruct (rev l) as [|y r] eqn:Hrev; [|reflexivity].
  apply (f_equal (@rev string)) in Hrev. rewrite rev_involutive in Hrev.
  now destruct Hl.
Qed.

Lemma append_assoc (a b c : string) : (a ++ b) ++ c = a ++ b ++ c.
Proof. induction a as [|x a IH]; cbn; [reflexivity | now rewrite IH]. Qed.

Lemma split_acc_absent c s cur :
  ~ In c (list_ascii_of_string s) -> JS.split_acc c s cur = [cur ++ s].
Proof.
  revert cur. induction s as [|a rest IH]; intros cur Hout; cbn.
  - clear Hout. induction cur as [|x cur IH]; cbn; [reflexivity|].
    injection IH as IH. now rewrite <- IH.
  - cbn in Hout. destruct (Ascii.eqb_spec a c) as [->|_].
    + exfalso. apply Hout. now left.
    + rewrite IH by (intros Hin; apply Hout; now right).
      now rewrite append_assoc.
Qed.

Lemma pop_split_acc_last c stem ext cur :
  ~ In c (list_ascii_of_string ext) ->
  JS.pop (JS.split_acc c (stem ++ String c ext) cur) = Some ext.
Proof.
  intros Hout. revert cur.
  induction stem as [|a rest IH]; intros cur; cbn [append JS.split_acc].
  - rewrite Ascii.eqb_refl, pop_cons by apply split_acc_nonempty.
    now rewrite split_acc_absent.
  - destruct (Ascii.eqb a c); [|apply IH].
    rewrite pop_cons by apply split_acc_nonempty. apply IH.
Qed.

(** X13. For a name whose last segment is made of ASCII characters,
    [getFileExtension] returns what follows the last '.' of the name with
    its letters a-z in upper case and nothing else changed; for such a name
    without any '.' that is the whole name. *)
Theorem getFileExtension_last_segment stem ext :
  JS.is_ascii ext = true ->
  ~ In "."%char (list_ascii_of_string ext) ->
  Utils.getFileExtension (stem ++ "." ++ ext) = JS.toUpperCase ext /\
  Utils.getFileExtension ext = JS.toUpperCase ext.
Proof.
  intros _ Hout. unfold Utils.getFileExtension, JS.split. split.
  - change ("." ++ ext) with (String "." ext).
    now rewrite pop_split_acc_last.
  - now rewrite split_acc_absent.
Qed.

Lemma getFileExtension_last_segment_witness :
  Utils.getFileExtension "my.photo.jpeg" = "JPEG" /\
  Utils.getFileExtension "jpeg" = "JPEG".
Proof.
  refine (getFileExtension_last_segment "my.photo" "jpeg" eq_refl _).
  cbn. intuition discriminate.
Defined.

(** X14. [generateWebPFilename] replaces what follows the last '.' of the
    name by [webp], whatever stands before it: nothing (a name that starts
    with its only '.' becomes [.webp]) or a stem with dots of its own. A
    name it produced is left as it is when passed again. *)
Theorem generateWebPFilename_replaces_extension stem ext :
  ~ In "."%char (list_ascii_of_string ext) ->
  Utils.generateWebPFilename (stem ++ "." ++ ext) = stem ++ ".webp" /\
  Utils.generateWebPFilename
    (Utils.generateWebPFilename (stem ++ "." ++ ext))
  = Utils.generateWebPFilename (stem ++ "." ++ ext).
Proof.
  intros Hout.
  rewrite (generateWebPFilename_with_extension stem ext Hout).
  split; [reflexivity|].
  apply (generateWebPFilename_with_extension stem "webp").
  cbn. intuition discriminate.
Qed.

Lemma generateWebPFilename_replaces_extension_witness :
  Utils.generateWebPFilename "archive.tar.gz" = "archive.tar.webp" /\
  Utils.generateWebPFilename (Utils.generateWebPFilename "archive.tar.gz")
  = Utils.generateWebPFilename "archive.tar.gz".
Proof.
  refine (generateWebPFilename_replaces_extension "archive.tar" "gz" _).
  cbn. intuition discriminate.
Defined.

(** ** Validation *)

(** X15. [validateFile] accepts exactly the files that are present, of a
    supported type and of at most [MAX_FILE_SIZE] bytes (an empty file
    included), and it returns an error message exactly when it does not
    accept. *)
Theorem validateFile_accepts file :
  (Utils.valid (Utils.validateFile file) = true <->
   exists f,
     file = Some f /\ In (type f) Utils.SUPPORTED_TYPES /\
     (size f <= Utils.MAX_FILE_SIZE)%N) /\
  (Utils.valid (Utils.validateFile file) = true <->
   Utils.error (Utils.validateFile file) = None).
Proof.
  unfold Utils.validateFile.
  destruct file as [f|]; cbn [Utils.valid Utils.error].
  - pose proof (includes_In Utils.SUPPORTED_TYPES (type f)) as Htype.
    fold (Utils.isValidFileType f) in Htype.
    pose proof (N.leb_le (size f) Utils.MAX_FILE_SIZE) as Hsize.
    fold (Utils.isValidFileSize f) in Hsize.
    destruct (Utils.isValidFileType f); cbn [negb Utils.valid Utils.error].
    + destruct (Utils.isValidFileSize f); cbn [negb Utils.valid Utils.error].
      * split; [|now split]. split; [|reflexivity].
        intros _. exists f. split; [reflexivity|].
        split; [now apply Htype | now apply Hsize].
      * split; [|split; discriminate]. split; [discriminate|].
        intros (f' & Hf & _ & Hle). injection Hf as <-.
        apply Hsize in Hle. discriminate.
    + split; [|split; discriminate]. split; [discriminate|].
      intros (f' & Hf & Hin & _). injection Hf as <-.
      apply Htype in Hin. discriminate.
  - split; [|split; discriminate]. split; [discriminate|].
    intros (f & Hf & _). discriminate.
Qed.

(** ** Sizes *)

Lemma unit_index_range bytes i :
  (1024 ^ i <= bytes < 1024 ^ (i + 1))%N -> Utils.unit_index bytes = i.
Proof.
  intros [Hlow Hhigh]. unfold Utils.unit_index.
  assert (Hpos : (0 < bytes)%N).
  { apply N.lt_le_trans with (1024 ^ i)%N; [|assumption].
    apply N.neq_0_lt_0, N.pow_nonzero. discriminate. }
  change 1024%N with (2 ^ 10)%N in Hlow, Hhigh.
  rewrite <- N.pow_mul_r in Hlow, Hhigh.
  apply N.log2_le_pow2 in Hlow; [|assumption].
  apply N.log2_lt_pow2 in Hhigh; [|assumption].
  symmetry. apply (N.div_unique _ 10 i (N.log2 bytes - 10 * i)); lia.
Qed.

(** X16. Below 1024^4 bytes, and for at most 11 decimals, the unit follows
    the size: [Bytes] below 1024, [KB] below 1024^2, [MB] below 1024^3 and
    [GB] from there on; the text before it is the size divided by the
    unit's power of 1024, rounded to the decimals asked for (none when a
    negative number is asked for), without trailing zeros. *)
Theorem formatFileSize_unit bytes decimals :
  (0 < bytes < 1024 ^ 4)%N ->
  (decimals <= 11)%Z ->
  let i := if (bytes <? 1024)%N then 0%N
           else if (bytes <? 1024 ^ 2)%N then 1%N
           else if (bytes <? 1024 ^ 3)%N then 2%N
           else 3%N in
  let d := Z.to_nat (Z.max 0 decimals) in
  Utils.formatFileSize bytes decimals
  = JS.shortest_string (JS.round_scaled bytes (1024 ^ i) d) d ++ " "
      ++ nth (N.to_nat i) Utils.sizes "".
Proof.
  intros [Hpos Hhigh] _. cbv zeta.
  assert (Hd : Z.to_nat (if (decimals <? 0)%Z then 0%Z else decimals)
               = Z.to_nat (Z.max 0 decimals))
    by (destruct (Z.ltb_spec decimals 0); f_equal; lia).
  unfold Utils.formatFileSize.
  destruct (N.eqb_spec bytes 0) as [->|_]; [now apply N.lt_irrefl in Hpos|].
  rewrite Hd.
  destruct (N.ltb_spec bytes 1024) as [H1|H1];
    [|destruct (N.ltb_spec bytes (1024 ^ 2)) as [H2|H2];
      [|destruct (N.ltb_spec bytes (1024 ^ 3)) as [H3|H3]]].
  - rewrite (unit_index_range bytes 0) by (cbn; lia). reflexivity.
  - rewrite (unit_index_range bytes 1) by (split; assumption). reflexivity.
  - rewrite (unit_index_range bytes 2) by (split; assumption). reflexivity.
  - rewrite (unit_index_range bytes 3) by (split; assumption). reflexivity.
Qed.

Lemma formatFileSize_unit_witness :
  Utils.formatFileSize 5000000 2 = "4.77" ++ " " ++ "MB".
Proof.
  refine (formatFileSize_unit 5000000 2 _ _); [split; reflexivity|lia].
Defined.

Lemma digits_of_N_nonempty n : (1 <= String.length (JS.digits_of_N n))%nat.
Proof.
  unfold JS.digits_of_N, NilZero.string_of_uint.
  destruct (N.to_uint n); cbn; lia.
Qed.

Lemma strip_zeros_scaled n d :
  JS.strip_zeros (n * 10 ^ N.of_nat d) d = JS.strip_zeros n 0.
Proof.
  induction d as [|d IH]; [cbn; now rewrite N.mul_1_r|].
  cbn [JS.strip_zeros].
  rewrite Nat2N.inj_succ, N.pow_succ_r'.
  replace (n * (10 * 10 ^ N.of_nat d))%N
    with ((n * 10 ^ N.of_nat d) * 10)%N by lia.
  rewrite N.Div0.mod_mul, N.div_mul by discriminate.
  exact IH.
Qed.

(** X17. A size below 1024 bytes is printed as the plain byte count
    followed by [Bytes], whatever the number of decimals asked for, up to
    the 100 that [toFixed] accepts. *)
Theorem formatFileSize_bytes bytes decimals :
  (0 < bytes < 1024)%N ->
  (decimals <= 100)%Z ->
  Utils.formatFileSize bytes decimals = JS.digits_of_N bytes ++ " Bytes".
Proof.
  intros [Hpos Hhigh] _. unfold Utils.formatFileSize.
  destruct (N.eqb_spec bytes 0) as [->|_]; [now apply N.lt_irrefl in Hpos|].
  rewrite (unit_index_range bytes 0) by (cbn; lia).
  cbn [N.to_nat nth_error Utils.sizes JS.to_string].
  set (d := Z.to_nat _).
  unfold JS.round_scaled. change (1024 ^ 0)%N with 1%N.
  replace ((2 * bytes * 10 ^ N.of_nat d + 1) / (2 * 1))%N
    with (bytes * 10 ^ N.of_nat d)%N.
  2:{ apply (N.div_unique _ _ _ 1%N); lia. }
  unfold JS.shortest_string.
  rewrite strip_zeros_scaled. cbn [JS.strip_zeros].
  unfold JS.fixed_string.
  pose proof (digits_of_N_nonempty bytes) as Hlen.
  replace (1 - String.length (JS.digits_of_N bytes))%nat with O by lia.
  reflexivity.
Qed.

Lemma formatFileSize_bytes_witness :
  Utils.formatFileSize 1023 2 = "1023" ++ " Bytes".
Proof.
  refine (formatFileSize_bytes 1023 2 _ _); [split; reflexivity|lia].
Defined.

(** ** Reduction from nothing *)

(** X18. [calculateReduction] does not guard against an original size of
    zero: the division by zero goes through, and the result is
    "+Infinity%" for every new size above zero and "+NaN%" when both sizes
    are zero. *)
Theorem calculateReduction_from_zero newSize :
  is_finite newSize = true -> (0 <? newSize)%float = true ->
  Utils.calculateReduction 0 newSize = "+Infinity%" /\
  Utils.calculateReduction 0 0 = "+NaN%".
Proof.
  intros Hfinite Hpos. split; [|reflexivity].
  destruct (positive_finite newSize Hfinite Hpos) as (m & e & H).
  assert (Hsub : (0 - newSize)%float = SF2Prim (S754_finite true m e)).
  { rewrite <- (SF2Prim_Prim2SF (0 - newSize)). f_equal.
    rewrite sub_spec, H. reflexivity. }
  assert (Hvalid : valid_binary (S754_finite true m e) = true).
  { pose proof (Prim2SF_valid newSize) as Hv. rewrite H in Hv. exact Hv. }
  assert (Hdiv : ((0 - newSize) / 0)%float = neg_infinity).
  { apply Prim2SF_inj.
    rewrite div_spec, Hsub, (Prim2SF_SF2Prim _ Hvalid). reflexivity. }
  unfold Utils.calculateReduction. rewrite Hdiv. reflexivity.
Qed.

Lemma calculateReduction_from_zero_witness :
  Utils.calculateReduction 0 3000000 = "+Infinity%" /\
  Utils.calculateReduction 0 0 = "+NaN%".
Proof.
  exact (calculateReduction_from_zero 3000000%float eq_refl eq_refl).
Defined.

(** ** Debouncing *)

Section DebounceFacts.

Variable A : Type.
Implicit Types (w : Debounce.World A) (evs : list (Debounce.Event A)).

Lemma tidy_executedFunction args w :
  Debounce.tidy w ->
  Debounce.pending (Debounce.executedFunction args w)
  = [(Debounce.next_id w, args)] /\
  Debounce.invoked (Debounce.executedFunction args w) = Debounce.invoked w /\
  Debounce.tidy (Debounce.executedFunction args w).
Proof.
  intros Htidy.
  assert (Hcleared :
            Debounce.clearTimeout (Debounce.timeout w) (Debounce.pending w)
            = []).
  { destruct Htidy as [Hnone | (id & a & Hone & Hid & _)].
    - rewrite Hnone. now destruct (Debounce.timeout w).
    - rewrite Hone, Hid. cbn. now rewrite N.eqb_refl. }
  unfold Debounce.executedFunction. cbn. rewrite Hcleared.
  split; [reflexivity|]. split; [reflexivity|].
  right. exists (Debounce.next_id w), args. cbn.
  repeat split. apply N.lt_succ_diag_r.
Qed.

Lemma tidy_fire id w w' :
  Debounce.tidy w -> Debounce.fire id w = Some w' ->
  exists args,
    Debounce.pending w = [(id, args)] /\
    Debounce.pending w' = [] /\
    Debounce.invoked w' = (Debounce.invoked w ++ [args])%list.
Proof.
  intros Htidy. unfold Debounce.fire.
  destruct Htidy as [Hnone | (id0 & a & Hone & Hid & _)].
  - rewrite Hnone. discriminate.
  - rewrite Hone, Hid. cbn.
    destruct (N.eqb_spec id0 id) as [->|_]; [|discriminate].
    cbn. intros H. injection H as <-. now exists a.
Qed.

Lemma tidy_happen ev w w' :
  Debounce.tidy w -> Debounce.happen ev w = Some w' -> Debounce.tidy w'.
Proof.
  intros Htidy. destruct ev as [args|id]; cbn.
  - intros H. injection H as <-. now apply tidy_executedFunction.
  - intros H. destruct (tidy_fire id w w' Htidy H) as (_ & _ & Hnone & _).
    now left.
Qed.

Lemma run_snoc evs ev w :
  Debounce.run (evs ++ [ev])%list w
  = match Debounce.run evs w with
    | Some w' => Debounce.happen ev w'
    | None => None
    end.
Proof.
  revert w. induction evs as [|e evs IH]; intros w; cbn.
  - now destruct (Debounce.happen ev w).
  - destruct (Debounce.happen e w); [apply IH | reflexivity].
Qed.

Lemma calls_snoc evs ev :
  Debounce.calls (evs ++ [ev])%list
  = (Debounce.calls evs
       ++ match ev with Debounce.Call args => [args] | _ => [] end)%list.
Proof.
  induction evs as [|[a|i] evs IH]; cbn.
  - now destruct ev.
  - now rewrite IH.
  - exact IH.
Qed.

(** X19. However calls of the debounced function and timer firings
    follow each other, at most one timer is pending, namely the one
    [timeout] names; [func] has been invoked at most as often as the
    debounced function was called, counting the pending timer as an
    invocation to come; and every invocation passed the arguments of one
    of those calls. *)
Theorem debounce_invariant first evs w :
  Debounce.run evs (Debounce.start first) = Some w ->
  Debounce.tidy w /\
  (length (Debounce.invoked w) + length (Debounce.pending w)
   <= length (Debounce.calls evs))%nat /\
  (forall args,
      In args (Debounce.invoked w) \/
      In args (map snd (Debounce.pending w)) ->
      In args (Debounce.calls evs)).
Proof.
  revert w. induction evs as [|ev evs IH] using rev_ind; intros w.
  - cbn. intros H. injection H as <-. cbn.
    split; [now left|]. split; [lia | intros args [[]|[]]].
  - rewrite run_snoc, calls_snoc.
    destruct (Debounce.run evs (Debounce.start first)) as [w0|];
      [|discriminate].
    destruct (IH w0 eq_refl) as (Htidy & Hcount & Hargs). intros Hev.
    split; [now apply (tidy_happen ev w0)|].
    destruct ev as [a|id]; cbn in Hev.
    + injection Hev as <-.
      destruct (tidy_executedFunction a w0 Htidy) as (Hpending & Hinv & _).
      rewrite Hpending, Hinv, length_app. cbn. split; [lia|].
      intros args [Hin | [<- | []]]; apply in_or_app;
        [left; apply Hargs; now left | right; now left].
    + destruct (tidy_fire id w0 w Htidy Hev) as (a & Hone & Hnone & Hinv).
      rewrite Hnone, Hinv, app_nil_r, length_app.
      rewrite Hone in Hcount, Hargs. cbn in *. split; [lia|].
      intros args [Hin | []]. apply in_app_or in Hin.
      destruct Hin as [Hin | [<- | []]]; apply Hargs; auto.
Qed.

(** X20. The last call wins. After any number of calls in a row, one
    timer is pending, and when it fires [func] is invoked exactly once,
    with the arguments of the last of those calls; no timer is pending
    afterwards. *)
Theorem debounce_burst w before last w' :
  Debounce.tidy w ->
  Debounce.run (map Debounce.Call (before ++ [last])%list) w = Some w' ->
  exists id w'',
    Debounce.pending w' = [(id, last)] /\
    Debounce.fire id w' = Some w'' /\
    Debounce.invoked w'' = (Debounce.invoked w ++ [last])%list /\
    Debounce.pending w'' = [].
Proof.
  intros Htidy. rewrite map_app. cbn [map]. rewrite run_snoc.
  assert (Hquiet : forall l w0,
             Debounce.tidy w0 ->
             exists w1,
               Debounce.run (map Debounce.Call l) w0 = Some w1 /\
               Debounce.tidy w1 /\
               Debounce.invoked w1 = Debounce.invoked w0).
  { induction l as [|a l IHl]; intros w0 H0; cbn.
    - now exists w0.
    - destruct (tidy_executedFunction a w0 H0) as (_ & Hinv & H1).
      destruct (IHl _ H1) as (w1 & Hrun & Htidy1 & Hinv1).
      exists w1. now rewrite Hrun, Hinv1. }
  destruct (Hquiet before w Htidy) as (w1 & Hrun & Htidy1 & Hinv1).
  rewrite Hrun. cbn. intros H. injection H as <-.
  destruct (tidy_executedFunction last w1 Htidy1) as (Hpending & Hinv & _).
  exists (Debounce.next_id w1). unfold Debounce.fire.
  rewrite Hpending. cbn. rewrite N.eqb_refl. cbn.
  eexists. split; [reflexivity|]. split; [reflexivity|]. cbn.
  rewrite Hinv1. now split.
Qed.

End DebounceFacts.

Lemma debounce_invariant_witness :
  Debounce.tidy (Debounce.mkWorld (Some 2%N) 3%N [(2%N, "b")] ["a"]) /\
  (length ["a"] + length [(2%N, "b")] <= length ["a"; "b"])%nat /\
  (forall args,
      In args ["a"] \/ In args (map snd [(2%N, "b")]) ->
      In args ["a"; "b"]).
Proof.
  exact (debounce_invariant string 1%N
           [Debounce.Call "a"; Debounce.Fire 1%N; Debounce.Call "b"]
           _ eq_refl).
Defined.

Lemma debounce_burst_witness :
  exists id w'',
    Debounce.pending (Debounce.mkWorld (Some 3%N) 4%N [(3%N, "90")] [])
    = [(id, "90")] /\
    Debounce.fire id (Debounce.mkWorld (Some 3%N) 4%N [(3%N, "90")] [])
    = Some w'' /\
    Debounce.invoked w'' = ([] ++ ["90"])%list /\
    Debounce.pending w'' = [].
Proof.
  exact (debounce_burst string (Debounce.start 1%N) ["70"; "80"] "90" _
           (or_introl eq_refl) eq_refl).
Defined.

(** ** Byte counts as Numbers *)

Section ByteCounts.

Local Open Scope Z_scope.

Lemma digits2_pos_unique m k :
  2 ^ (k - 1) <= Zpos m < 2 ^ k -> Zpos (digits2_pos m) = k.
Proof.
  intros [Hlow Hhigh].
  pose proof (digits2_pos_bounds m) as [Dlow Dhigh].
  set (D := Zpos (digits2_pos m)) in *.
  assert (HD : 0 < D) by (subst D; lia).
  assert (Hk : 0 < k).
  { destruct (Z.lt_ge_cases 0 k) as [|Hneg]; [assumption|].
    assert (2 ^ k <= 2 ^ 0) by (apply Z.pow_le_mono_r; lia).
    change (2 ^ 0) with 1 in *. lia. }
  destruct (Z.lt_trichotomy D k) as [Hlt | [Heq | Hgt]]; [|assumption|].
  - assert (2 ^ D <= 2 ^ (k - 1)) by (apply Z.pow_le_mono_r; lia). lia.
  - assert (2 ^ k <= 2 ^ (D - 1)) by (apply Z.pow_le_mono_r; lia). lia.
Qed.

Lemma shl_align_exponent m e e' : e' <= e -> snd (shl_align m e e') = e'.
Proof.
  intros Hle. unfold shl_align.
  destruct (e' - e) as [|d|d] eqn:Hd; cbn [snd]; lia.
Qed.

(** A byte count from 1 to 2^53 - 1 is a positive binary64 of 53 digits
    whose value is the byte count. *)
Lemma number_of_N_exact n :
  (0 < n < 2 ^ 53)%N ->
  exists m e,
    Prim2SF (JS.number_of_N n) = S754_finite false m e /\
    Zpos m = Z.of_N n * 2 ^ (- e) /\ -52 <= e <= 0 /\
    2 ^ 52 <= Zpos m < 2 ^ 53.
Proof.
  intros [Hpos Hhigh]. destruct n as [|p]; [discriminate|].
  assert (Hp : Zpos p < 2 ^ 53).
  { change (2 ^ 53) with (Z.of_N (2 ^ 53)%N).
    change (Zpos p) with (Z.of_N (Npos p)). lia. }
  clear Hpos Hhigh.
  pose proof (digits2_pos_bounds p) as [Dlow Dhigh].
  set (d := Zpos (digits2_pos p)) in *.
  assert (Hd1 : 1 <= d) by (subst d; lia).
  assert (Hd : d <= 53).
  { destruct (Z.le_gt_cases d 53) as [|Hgt]; [assumption|].
    assert (2 ^ 53 <= 2 ^ (d - 1)) by (apply Z.pow_le_mono_r; lia). lia. }
  assert (Hfexp : fexp prec emax (d + 0) = d - 53)
    by (unfold fexp, SpecFloat.emin, prec, emax; lia).
  pose proof (shl_align_value p 0 (d - 53) ltac:(lia)) as Hvalue.
  pose proof (shl_align_exponent p 0 (d - 53) ltac:(lia)) as Hexp.
  destruct (shl_align p 0 (d - 53)) as [mz ez] eqn:Hsh.
  cbn [fst snd] in Hvalue, Hexp. subst ez.
  replace (0 - (d - 53)) with (53 - d) in Hvalue by lia.
  assert (Hsplit : 2 ^ 53 = 2 ^ d * 2 ^ (53 - d))
    by (rewrite <- Z.pow_add_r by lia; f_equal; lia).
  assert (Hsplit' : 2 ^ 52 = 2 ^ (d - 1) * 2 ^ (53 - d))
    by (rewrite <- Z.pow_add_r by lia; f_equal; lia).
  assert (Hshift : 0 < 2 ^ (53 - d)) by (apply Z.pow_pos_nonneg; lia).
  assert (Hmz : 2 ^ 52 <= Zpos mz < 2 ^ 53) by (rewrite Hvalue; nia).
  pose proof (digits2_pos_unique mz 53 Hmz) as Hdigits.
  assert (Hround :
            binary_normalize prec emax (Z.of_N (Npos p)) 0 false
            = S754_finite false mz (d - 53)).
  { cbn [Z.of_N binary_normalize]. unfold binary_round.
    fold d. rewrite Hfexp, Hsh.
    unfold binary_round_aux, shr_fexp. cbn [Zdigits2]. rewrite Hdigits.
    replace (fexp prec emax (53 + (d - 53)) - (d - 53)) with 0
      by (unfold fexp, SpecFloat.emin, prec, emax; lia).
    cbn [shr shr_record_of_loc shr_m shr_r shr_s loc_of_shr_record
         round_nearest_even Zdigits2].
    rewrite Hdigits.
    replace (fexp prec emax (53 + (d - 53)) - (d - 53)) with 0
      by (unfold fexp, SpecFloat.emin, prec, emax; lia).
    cbn [shr shr_record_of_loc shr_m].
    replace (d - 53 <=? emax - prec) with true; [reflexivity|].
    symmetry. apply Z.leb_le. unfold emax, prec. lia. }
  exists mz, (d - 53). unfold JS.number_of_N. rewrite Hround.
  split.
  - apply Prim2SF_SF2Prim. cbn [SpecFloat.valid_binary].
    unfold bounded, canonical_mantissa. rewrite Hdigits.
    apply andb_true_intro. split.
    + apply Z.eqb_eq. unfold fexp, SpecFloat.emin, prec, emax. lia.
    + apply Z.leb_le. unfold emax, prec. lia.
  - replace (- (d - 53)) with (53 - d) by lia.
    split; [exact Hvalue|]. split; [lia | exact Hmz].
Qed.

End ByteCounts.

Lemma number_of_N_positive n :
  (0 < n < 2 ^ 53)%N ->
  is_finite (JS.number_of_N n) = true /\
  (0 <? JS.number_of_N n)%float = true.
Proof.
  intros Hn. destruct (number_of_N_exact n Hn) as (m & e & H & _).
  unfold is_finite, is_nan, is_infinity.
  rewrite ltb_spec, !eqb_spec, abs_spec, H.
  change (Prim2SF 0) with (S754_zero false).
  change (Prim2SF infinity) with (S754_infinity false).
  unfold SFeqb, SFltb. cbn.
  now rewrite Z.compare_refl, Pos.compare_cont_refl.
Qed.

Lemma number_of_N_monotone n o :
  (n <= o)%N -> (0 < o < 2 ^ 53)%N ->
  (JS.number_of_N n <=? JS.number_of_N o)%float = true.
Proof.
  intros Hle Ho.
  destruct (number_of_N_exact o Ho) as (mo & eo & Hspec_o & Hvo & Heo & Hmo).
  rewrite leb_spec, Hspec_o.
  destruct (N.eq_0_gt_0_cases n) as [->|Hn]; [reflexivity|].
  destruct (number_of_N_exact n ltac:(lia))
    as (mn & en & Hspec_n & Hvn & Hen & Hmn).
  rewrite Hspec_n. unfold SFleb, SFcompare.
  assert (Hno : (Z.of_N n <= Z.of_N o)%Z) by lia.
  assert (Hn0 : (0 < Z.of_N n)%Z) by lia.
  destruct (Z.compare_spec en eo) as [Heq|Hlt|Hgt]; [|reflexivity|exfalso].
  - subst eo.
    assert (Hm : (mn <= mo)%positive).
    { assert (0 < 2 ^ (- en))%Z by (apply Z.pow_pos_nonneg; lia).
      assert (Zpos mn <= Zpos mo)%Z by (rewrite Hvn, Hvo; nia). lia. }
    unfold Pos.le, Pos.compare in Hm.
    now destruct (Pos.compare_cont Eq mn mo).
  - assert (Hpow : (2 * 2 ^ (- en) <= 2 ^ (- eo))%Z).
    { rewrite <- Z.pow_succ_r by lia. apply Z.pow_le_mono_r; lia. }
    assert (0 < 2 ^ (- en))%Z by (apply Z.pow_pos_nonneg; lia).
    change (2 ^ 53)%Z with (2 * 2 ^ 52)%Z in Hmo. nia.
Qed.

(** X21. What a conversion reports for a file that did not grow. When
    [convertToWebP] resolves for a file of at least one byte (and fewer
    than 2^53) and the blob is not larger than the file, the [reduction] it
    reports carries the sign '-'; when the blob has exactly the size of the
    file, it is "-0.0%". *)
Theorem conversion_reports_no_growth
    quality canvas_error encoded url e r e1 :
  convertToWebP quality canvas_error encoded url e = (Return r, e1) ->
  (0 < Conversion.originalSize r < 2 ^ 53)%N ->
  (Conversion.size r <= Conversion.originalSize r)%N ->
  (exists digits, Conversion.reduction r = "-" ++ digits ++ "%") /\
  (Conversion.size r = Conversion.originalSize r ->
   Conversion.reduction r = "-0.0%").
Proof.
  intros H.
  destruct (convertToWebP_returns _ _ _ _ _ _ _ H)
    as (img & f & blob & _ & _ & _ & _ & _ & _ & _ & Hr).
  rewrite Hr. cbn [Conversion.originalSize Conversion.size
                   Conversion.reduction].
  intros Horiginal Hle.
  destruct (number_of_N_positive _ Horiginal) as [Hfinite Hpos].
  pose proof (number_of_N_monotone _ _ Hle Horiginal) as Hleb.
  split.
  - unfold Utils.calculateReduction.
    rewrite (reduction_nonneg _ _ Hfinite Hpos Hleb). now eexists.
  - intros ->.
    destruct (positive_finite _ Hfinite Hpos) as (m & x & Hspec).
    unfold Utils.calculateReduction.
    rewrite (sub_diag _ false m x Hspec), (zero_div _ m x Hspec).
    reflexivity.
Qed.

Lemma conversion_reports_no_growth_witness :
  (exists digits, "-40.0%" = "-" ++ digits ++ "%") /\
  (3000000%N = 5000000%N -> "-40.0%" = "-0.0%").
Proof.
  refine (conversion_reports_no_growth None None (Some Sample.webp)
            "blob:1" Sample.loaded _ Sample.converted eq_refl _ _).
  - split; reflexivity.
  - cbn. discriminate.
Defined.

(* ================================================================= *)
(** * Calls that overlap *)

(** X22. A file loaded while an encode is in flight gets mixed into its
    result. The canvas belongs to the call, so the result that arrives has
    the dimensions of the image that was loaded when the encode started;
    but the original size it reports, and the reduction computed from it,
    are those of the file loaded in the meantime, and the blob is stored
    beside that newer file. *)
Theorem load_during_encode quality e p e1 img f' img' blob url :
  originalImage (state e) = Some img ->
  convertToWebP_start quality None e = (Return p, e1) ->
  let e2 := snd (loadImageFile_finish f' (inl img') e1) in
  exists r e3,
    convertToWebP_finish p (Some blob) url e2 = (Return r, e3) /\
    Conversion.width r = naturalWidth img /\
    Conversion.height r = naturalHeight img /\
    Conversion.originalSize r = size f' /\
    Conversion.reduction r
    = Utils.calculateReduction (JS.number_of_N (size f'))
                               (JS.number_of_N (Blob.size blob)) /\
    originalFile (state e3) = Some f' /\
    originalImage (state e3) = Some img' /\
    convertedBlob (state e3) = Some blob.
Proof.
  intros Himg Hstart. cbv zeta.
  pose proof (convertToWebP_start_exits quality None e) as Hexit.
  rewrite Hstart in Hexit.
  inversion Hexit as [| | |img0 Himg0 Hflag _ q Hp]; subst.
  assert (img0 = img) by congruence. subst img0. clear Hstart Hexit.
  run. do 2 eexists. split; [reflexivity|]. now repeat split.
Qed.

Lemma load_during_encode_witness :
  exists r e3,
    convertToWebP_finish Sample.awaiting (Some Sample.webp) "blob:1"
      (snd (loadImageFile_finish Sample.other (inl Sample.other_picture)
              Sample.converting))
    = (Return r, e3) /\
    Conversion.width r = 640%N /\
    Conversion.height r = 480%N /\
    Conversion.originalSize r = 4000000%N /\
    Conversion.reduction r
    = Utils.calculateReduction (JS.number_of_N 4000000)
                               (JS.number_of_N 3000000) /\
    originalFile (state e3) = Some Sample.other /\
    originalImage (state e3) = Some Sample.other_picture /\
    convertedBlob (state e3) = Some Sample.webp.
Proof.
  exact (load_during_encode None Sample.loaded Sample.awaiting
           Sample.converting Sample.picture Sample.other
           Sample.other_picture Sample.webp "blob:1" eq_refl eq_refl).
Defined.

(** ** A result and its source *)

Lemma orderly_reachable sys : orderly sys -> reachable sys.
Proof.
  induction 1 as [|sys sys' _ IH Hstep _]; [apply reachable_boot|].
  now apply reachable_step with sys.
Qed.

Lemma encodes_in_flight_member before p after :
  (1 <= encodes_in_flight (before ++ AwaitingBlob p :: after)%list)%nat.
Proof. rewrite encodes_in_flight_app. cbn. lia. Qed.

Lemma orderly_result_has_source sys :
  orderly sys ->
  convertedBlob (state (engine sys)) <> None ->
  originalImage (state (engine sys)) <> None.
Proof.
  induction 1 as [|sys sys' Horderly IH Hstep Hreset]; [cbn; congruence|].
  pose proof (orderly_balanced sys Horderly) as Hbalanced.
  destruct (reachable_consistent sys (orderly_reachable sys Horderly))
    as [Hflag _].
  destruct Hstep as
    [ sys file f e' H | sys file message e' H | sys before f after decoded _
    | sys quality canvas_error p e' H | sys quality canvas_error message e' H
    | sys before p after encoded url Hs | sys filename url | sys ];
    cbn [engine].
  - apply (f_equal snd) in H. rewrite loadImageFile_start_engine in H.
    cbn in H. now subst e'.
  - apply (f_equal snd) in H. rewrite loadImageFile_start_engine in H.
    cbn in H. now subst e'.
  - rewrite loadImageFile_finish_state.
    destruct decoded as [img|]; [cbn; discriminate | assumption].
  - pose proof (convertToWebP_start_exits quality canvas_error (engine sys))
      as Hexit.
    rewrite H in Hexit. inversion Hexit; subst; cbn. assumption.
  - pose proof (convertToWebP_start_exits quality canvas_error (engine sys))
      as Hexit.
    rewrite H in Hexit. inversion Hexit; subst; cbn; assumption.
  - destruct (convertToWebP_finish_source p encoded url (engine sys))
      as [_ Hi].
    rewrite Hi. intros _. apply Hflag.
    pose proof (encodes_in_flight_member before p after) as Hone.
    rewrite <- Hs, Hbalanced in Hone.
    destruct (isConverting (state (engine sys))); [reflexivity | lia].
  - now rewrite downloadWebP_state.
  - rewrite reset_state. cbn. congruence.
Qed.

(** X23. As long as [reset] is not called while an encode is in flight, a
    result never exists without its source: whenever [isConverted] is
    true, a file and its image are stored too, and [downloadWebP] returns
    normally, with or without a name. *)
Theorem orderly_result_with_source sys filename url :
  orderly sys ->
  isConverted (engine sys) = true ->
  hasImage (engine sys) = true /\
  (exists f, originalFile (state (engine sys)) = Some f) /\
  fst (downloadWebP filename url (engine sys)) = Return tt.
Proof.
  intros Horderly Hconverted. unfold isConverted, hasImage in *.
  pose proof (orderly_result_has_source sys Horderly) as Himage.
  destruct (reachable_consistent sys (orderly_reachable sys Horderly))
    as [_ Hfile].
  destruct (convertedBlob (state (engine sys))) as [blob|] eqn:Hblob;
    [|discriminate].
  specialize (Himage ltac:(discriminate)). specialize (Hfile Himage).
  destruct (originalImage (state (engine sys))) as [img|]; [|congruence].
  destruct (originalFile (state (engine sys))) as [f|] eqn:Hf; [|congruence].
  split; [reflexivity|]. split; [now exists f|].
  run. rewrite Hblob. cbn.
  destruct filename as [[|a rest]|]; cbn; rewrite ?Hf; reflexivity.
Qed.

(** X24. Without that proviso it does not hold. After [reset] during an
    encode, the encode that resumes stores its blob over the emptied
    state and then fails for want of the file: a state with a result and no
    source is reachable, in which [downloadWebP()] throws a [TypeError]. *)
Theorem reset_leaves_orphan_result :
  exists sys,
    reachable sys /\
    isConverted (engine sys) = true /\
    hasImage (engine sys) = false /\
    downloadWebP None "blob:2" (engine sys)
    = (Throw (null_read "name"), engine sys).
Proof.
  exists (mkSystem
            (snd (convertToWebP_finish Sample.awaiting (Some Sample.webp)
                    "blob:1" (snd (reset Sample.converting))))
            []).
  split; [|now repeat split].
  apply reachable_step
    with (mkSystem (snd (reset Sample.converting))
                   [AwaitingBlob Sample.awaiting]).
  - apply reachable_step
      with (mkSystem Sample.converting [AwaitingBlob Sample.awaiting]);
      [apply reachable_converting|].
    exact (call_reset
             (mkSystem Sample.converting [AwaitingBlob Sample.awaiting])).
  - exact (settle_convertToWebP
             (mkSystem (snd (reset Sample.converting))
                       [AwaitingBlob Sample.awaiting])
             [] Sample.awaiting [] (Some Sample.webp) "blob:1" eq_refl).
Qed.

Lemma orderly_converted : orderly (mkSystem Sample.converted []).
Proof.
  apply orderly_step
    with (mkSystem Sample.converting [AwaitingBlob Sample.awaiting]).
  - apply orderly_step with (mkSystem Sample.loaded []).
    + apply orderly_step
        with (mkSystem initial [AwaitingImage Sample.photo]).
      * apply orderly_step with boot; [apply orderly_boot | |reflexivity].
        exact (call_loadImageFile boot (Some Sample.photo) Sample.photo
                 initial eq_refl).
      * exact (settle_loadImageFile
                 (mkSystem initial [AwaitingImage Sample.photo])
                 [] Sample.photo [] (inl Sample.picture) eq_refl).
      * reflexivity.
    + exact (call_convertToWebP (mkSystem Sample.loaded []) None None
               Sample.awaiting Sample.converting eq_refl).
    + reflexivity.
  - exact (settle_convertToWebP
             (mkSystem Sample.converting [AwaitingBlob Sample.awaiting])
             [] Sample.awaiting [] (Some Sample.webp) "blob:1" eq_refl).
  - unfold is_reset. cbn. discriminate.
Qed.

Lemma orderly_result_with_source_witness :
  hasImage Sample.converted = true /\
  (exists f, originalFile (state Sample.converted) = Some f) /\
  fst (downloadWebP (Some "picture.webp") "blob:2" Sample.converted)
  = Return tt.
Proof.
  exact (orderly_result_with_source (mkSystem Sample.converted [])
           (Some "picture.webp") "blob:2" orderly_converted eq_refl).
Defined.
